(** * SOFC heating-ramp advisor ([app.py]): model and verified properties

    The Python script keeps three pieces of session state (the sample
    history, the boundary-condition log and the last seen configuration),
    reads four operator limits from the sidebar and, on each submitted
    sample, calls [calculate_next_step] on the new sample and the last
    stored one.

    Numbers.  The script computes on Python floats, that is IEEE 754
    binary64 numbers with round-to-nearest-even.  Module [B64] models them:
    a float is a rational, an infinity or NaN, and every operation rounds
    its exact result with [B64.RN].  The numbers that enter the script (the
    fields of a sample, the limits, the literals [0.20] and [0.95]) are
    kept as the rationals they are written as and become floats through
    [B64.RN] where the script computes with them, as a decimal typed into a
    widget or written in the source becomes the nearest binary64 number; a
    rational that is a binary64 number already is left as it is
    ([RN_idempotent]).  The one thing not distinguished is the sign of a
    zero, which no comparison of the script can see.  Module [Hardware]
    compares the operations of [B64] with the machine's own binary64
    operations on a table of numbers that includes the smallest and the
    largest ones, the infinities and NaN. *)

From Stdlib Require Import ZArith QArith Qminmax Qabs Qround Qpower Lqa Lia
  List String Bool.
From Stdlib Require Floats.
Import ListNotations.
Open Scope Q_scope.

(** ** Binary64 arithmetic *)

Module B64.

Inductive float : Type :=
| NaN
| NInf
| Fin (q : Q)
| PInf.

(** Nearest integer, ties to the even neighbour. *)
Definition round_half_even (x : Q) : Z :=
  let f := Qfloor x in
  match Qcompare (x - inject_Z f) (1 # 2) with
  | Lt => f
  | Gt => (f + 1)%Z
  | Eq => if Z.even f then f else (f + 1)%Z
  end.

Definition pow2 (k : Z) : Q := Qpower 2 k.

(** The integer part of the binary logarithm of a positive rational. *)
Definition ilog2 (q : Q) : Z :=
  let k := (Z.log2 (Qnum q) - Z.log2 (Zpos (Qden q)))%Z in
  if Qle_bool (pow2 k) q then k else (k - 1)%Z.

(** The exponent of the last place of a positive rational: 53 significant
    bits, and nothing finer than 2^-1074. *)
Definition exponent (q : Q) : Z := Z.max (ilog2 q - 52) (-1074).

(** A positive rational rounded to 53 significant bits, ties to even. *)
Definition round_pos (q : Q) : Q :=
  let e := exponent q in
  inject_Z (round_half_even (q * pow2 (- e))) * pow2 e.

(** The binary64 number nearest to a rational; an infinity from 2^1024
    on. *)
Definition RN (x : Q) : float :=
  match Qcompare x 0 with
  | Eq => Fin 0
  | Gt => let r := round_pos x in
          if Qle_bool (pow2 1024) r then PInf else Fin (Qred r)
  | Lt => let r := round_pos (- x) in
          if Qle_bool (pow2 1024) r then NInf else Fin (Qred (- r))
  end.

Definition fopp (x : float) : float :=
  match x with
  | NaN => NaN
  | NInf => PInf
  | Fin q => Fin (- q)
  | PInf => NInf
  end.

Definition fadd (x y : float) : float :=
  match x, y with
  | NaN, _ | _, NaN => NaN
  | PInf, NInf | NInf, PInf => NaN
  | PInf, _ | _, PInf => PInf
  | NInf, _ | _, NInf => NInf
  | Fin a, Fin b => RN (a + b)
  end.

Definition fsub (x y : float) : float := fadd x (fopp y).

(** The sign of an infinity multiplied or divided by a finite number:
    kept by a positive one, turned by a negative one, lost on zero. *)
Definition scale_inf (inf : float) (q : Q) : float :=
  match Qcompare q 0 with
  | Eq => NaN
  | Gt => inf
  | Lt => fopp inf
  end.

Definition fmul (x y : float) : float :=
  match x, y with
  | NaN, _ | _, NaN => NaN
  | Fin a, Fin b => RN (a * b)
  | Fin a, inf => scale_inf inf a
  | inf, Fin b => scale_inf inf b
  | PInf, PInf | NInf, NInf => PInf
  | PInf, NInf | NInf, PInf => NInf
  end.

(** Division.  Python raises [ZeroDivisionError] on a zero divisor; the
    script divides by [dt], tested positive before, and by [H2_GAIN] only,
    so that case is never reached; it is given NaN here. *)
Definition fdiv (x y : float) : float :=
  match x, y with
  | NaN, _ | _, NaN => NaN
  | Fin a, Fin b => if Qeq_bool b 0 then NaN else RN (a / b)
  | Fin _, _ => Fin 0
  | inf, Fin b => scale_inf inf b
  | _, _ => NaN
  end.

Definition fabs (x : float) : float :=
  match x with
  | NaN => NaN
  | Fin q => Fin (Qabs q)
  | _ => PInf
  end.

(** Comparison; NaN compares with nothing. *)
Definition fcompare (x y : float) : option comparison :=
  match x, y with
  | NaN, _ | _, NaN => None
  | NInf, NInf | PInf, PInf => Some Eq
  | NInf, _ | _, PInf => Some Lt
  | _, NInf | PInf, _ => Some Gt
  | Fin a, Fin b => Some (Qcompare a b)
  end.

Definition fltb (x y : float) : bool :=
  match fcompare x y with Some Lt => true | _ => false end.

Definition fleb (x y : float) : bool :=
  match fcompare x y with Some Lt | Some Eq => true | _ => false end.

Definition flt (x y : float) : Prop := fltb x y = true.
Definition fle (x y : float) : Prop := fleb x y = true.
Definition feq (x y : float) : Prop := fcompare x y = Some Eq.

(** A value the arithmetic can produce and pass on: a binary64 number or
    an infinity. *)
Definition is_float (x : float) : Prop :=
  match x with
  | NaN => False
  | Fin r => RN r = Fin r
  | _ => True
  end.

(** A binary64 number proper. *)
Definition finite (x : float) : Prop :=
  match x with
  | Fin _ => True
  | _ => False
  end.

End B64.

Import B64.

(** ** Python built-ins used by the script *)

Module Py.

(** [a != b] on the numbers held by a dict. *)
Definition neqb (a b : Q) : bool := negb (Qeq_bool a b).

(** [max(a, b)]: the first argument is kept unless the second is strictly
    greater. *)
Definition max (a b : float) : float := if fltb a b then b else a.

(** [min(a, b)]: the first argument is kept unless the second is strictly
    smaller. *)
Definition min (a b : float) : float := if fltb b a then b else a.

(** [10 ** n] *)
Definition pow10 (n : nat) : Q := inject_Z (10 ^ Z.of_nat n).

(** [round(x, n)] on a float: the exact value of [x] is rounded to [n]
    decimal places, ties to even, and the float nearest to that decimal is
    returned; infinities and NaN round to themselves. *)
Definition round (x : float) (n : nat) : float :=
  match x with
  | Fin q => RN (inject_Z (round_half_even (q * pow10 n)) / pow10 n)
  | _ => x
  end.

End Py.

(** ** Data *)

(** The status texts of [calculate_next_step]. *)
Definition MSG_WAITING : string := "等待下一次採樣...".
Definition MSG_STABLE : string := "系統運行穩定，微調氫氣".
Definition MSG_AFTERBURNER : string :=
  "🚨 觸發尾燃器溫差保護：調減 H2 並調增空氣".
Definition MSG_STACK : string :=
  "⚠️ 觸發電堆溫差保護：增加空氣流量以均勻溫度".

(** One entry of [st.session_state.history]: the dict
    [{'time', 'h2', 'air', 't2', 'tc3', 'tc1'}].  [time] is a [datetime],
    kept as its count of microseconds; the five numbers are kept as
    entered. *)
Record Sample : Type := mkSample {
  time : Z;
  h2 : Q;
  air : Q;
  t2 : Q;
  tc3 : Q;
  tc1 : Q
}.

(** The four sidebar inputs, module-level variables of the script that
    [calculate_next_step] reads: the slider gives a float, the three
    number inputs give integers, which binary64 holds exactly up to 2^53
    in size. *)
Record Limits : Type := mkLimits {
  target_slope : Q;
  max_stack_dt : Q;
  max_ab_dt : Q;
  min_air_flow : Q
}.

(** The 4-tuple returned by [calculate_next_step]. *)
Record StepResult : Type := mkResult {
  next_h2 : float;
  next_air : float;
  status_msg : string;
  observed_slope : float
}.

(** ** The ramp controller *)

(** [(curr['time'] - last['time']).total_seconds() / 60.0]:
    [total_seconds] is the correctly rounded quotient of the microseconds
    by 10^6. *)
Definition elapsed_minutes (curr last : Sample) : float :=
  fdiv (RN (inject_Z (time curr - time last) / 1000000)) (Fin 60).

Definition H2_GAIN : float := RN (20 # 100).

Definition calculate_next_step (lim : Limits) (curr last : Sample) : StepResult :=
  let dt := elapsed_minutes curr last in
  if fleb dt (Fin 0)
  then mkResult (RN (h2 curr)) (RN (air curr)) MSG_WAITING (Fin 0)
  else
    let actual_slope := fdiv (fsub (RN (tc3 curr)) (RN (tc3 last))) dt in
    let stack_dt := fabs (fsub (RN (tc3 curr)) (RN (t2 curr))) in
    let ab_dt := fsub (RN (tc1 curr)) (RN (tc3 curr)) in
    let slope_error := fsub (RN (target_slope lim)) actual_slope in
    let h2_adjustment := fdiv slope_error H2_GAIN in
    let suggested_h2 := Py.max (Fin 0) (fadd (RN (h2 curr)) h2_adjustment) in
    let suggested_air := RN (air curr) in
    let status := MSG_STABLE in
    let '(suggested_h2, suggested_air, status) :=
      if fltb (fsub (RN (max_ab_dt lim)) (Fin 10)) ab_dt
      then (Py.min suggested_h2 (fmul (RN (h2 curr)) (RN (95 # 100))),
            fadd suggested_air (Fin 50), MSG_AFTERBURNER)
      else (suggested_h2, suggested_air, status) in
    let '(suggested_air, status) :=
      if fltb (fsub (RN (max_stack_dt lim)) (Fin 15)) stack_dt
      then (fadd suggested_air (Fin 100), MSG_STACK)
      else (suggested_air, status) in
    mkResult (Py.round suggested_h2 2)
             (Py.round (Py.max suggested_air (RN (min_air_flow lim))) 1)
             status actual_slope.

(** ** Session state, sidebar and sample submission *)

(** A Python [dict] from text keys to numbers, in insertion order (the
    order in which [for key in d] visits it). *)
Definition Dict : Type := list (string * Q).

(** [d.get(key)] *)
Fixpoint dict_get (d : Dict) (key : string) : option Q :=
  match d with
  | [] => None
  | (k, v) :: d' => if String.eqb key k then Some v else dict_get d' key
  end.

(** [a == b] on dicts: the same keys, bound to equal numbers. *)
Definition dict_eqb (a b : Dict) : bool :=
  Nat.eqb (List.length a) (List.length b) &&
  forallb (fun kv => match dict_get b (fst kv) with
                     | Some w => Qeq_bool (snd kv) w
                     | None => false
                     end) a.

(** [v != old] where [old] is the result of [.get]: a number differs from
    [None]. *)
Definition differs (v : Q) (old : option Q) : bool :=
  match old with
  | Some w => Py.neqb v w
  | None => true
  end.

(** One row of [config_log]: the dict with the keys
    [時間], [變更項目], [舊值], [新值]. *)
Record ChangeRecord : Type := mkChange {
  change_time : string;
  change_field : string;
  change_old : option Q;
  change_new : Q
}.

Record SessionState : Type := mkState {
  history : list Sample;
  config_log : list ChangeRecord;
  last_config : Dict
}.

(** The state of a fresh session (lines 10-15). *)
Definition initial_state : SessionState := mkState [] [] [].

Definition KEY_TARGET_SLOPE : string := "目標速率".
Definition KEY_MAX_STACK_DT : string := "電堆溫差限制".
Definition KEY_MAX_AB_DT : string := "尾燃器溫差限制".

(** The dict [current_config] built from the sidebar inputs. *)
Definition current_config (lim : Limits) : Dict :=
  [ (KEY_TARGET_SLOPE, target_slope lim);
    (KEY_MAX_STACK_DT, max_stack_dt lim);
    (KEY_MAX_AB_DT, max_ab_dt lim) ].

(** The loop [for key in current_config: if ... : config_log.insert(0, ...)].
    [clock key] is the text [datetime.now().strftime(...)] gives when the
    record of [key] is written. *)
Definition log_changes (clock : string -> string) (cur last : Dict)
    (log : list ChangeRecord) : list ChangeRecord :=
  fold_left
    (fun log kv =>
       let key := fst kv in
       if differs (snd kv) (dict_get last key)
       then mkChange (clock key) key (dict_get last key) (snd kv) :: log
       else log)
    cur log.

(** The sidebar block (lines 30-45), run on every rerun of the script. *)
Definition sidebar (clock : string -> string) (lim : Limits)
    (st : SessionState) : SessionState :=
  let cur := current_config lim in
  let last := last_config st in
  let log :=
    match last with
    | [] => config_log st
    | _ :: _ =>
        if negb (dict_eqb cur last)
        then log_changes clock cur last (config_log st)
        else config_log st
    end in
  mkState (history st) log cur.

(** Lines 131-133: [history.append(e)], then [history.pop(0)] when more
    than 20 entries are held. *)
Definition history_append (h : list Sample) (e : Sample) : list Sample :=
  let h := h ++ [e] in
  if (20 <? List.length h)%nat then tl h else h.

(** The submit block (lines 108-133): the advice shown, if any, and the
    state after it. *)
Definition submit (lim : Limits) (current_entry : Sample)
    (st : SessionState) : option StepResult * SessionState :=
  let shown :=
    match history st with
    | [] => None
    | _ :: _ =>
        let last_entry := List.last (history st) current_entry in
        Some (calculate_next_step lim current_entry last_entry)
    end in
  (shown,
   mkState (history_append (history st) current_entry)
           (config_log st) (last_config st)).

(** The state after submitting the samples of [l] one after the other. *)
Definition submit_all (lim : Limits) (l : list Sample)
    (st : SessionState) : SessionState :=
  fold_left (fun st e => snd (submit lim e st)) l st.

(** ** Vocabulary of the statements *)

(** The quantities the controller derives from its inputs, named as in the
    source and computed as the source computes them. *)
Definition actual_slope (curr last : Sample) : float :=
  fdiv (fsub (RN (tc3 curr)) (RN (tc3 last))) (elapsed_minutes curr last).
Definition stack_dt (curr : Sample) : float :=
  fabs (fsub (RN (tc3 curr)) (RN (t2 curr))).
Definition ab_dt (curr : Sample) : float :=
  fsub (RN (tc1 curr)) (RN (tc3 curr)).

(** The step runs past the early return: [dt <= 0] is false. *)
Definition active (curr last : Sample) : Prop :=
  flt (Fin 0) (elapsed_minutes curr last).

(** The guards of the two protection rules, as the code tests them. *)
Definition afterburner_test (lim : Limits) (curr : Sample) : bool :=
  fltb (fsub (RN (max_ab_dt lim)) (Fin 10)) (ab_dt curr).
Definition stack_test (lim : Limits) (curr : Sample) : bool :=
  fltb (fsub (RN (max_stack_dt lim)) (Fin 15)) (stack_dt curr).
Definition afterburner_fires (lim : Limits) (curr : Sample) : Prop :=
  afterburner_test lim curr = true.
Definition stack_fires (lim : Limits) (curr : Sample) : Prop :=
  stack_test lim curr = true.


(** The cap of the afterburner rule, 95 percent of the current fuel
    flow. *)
Definition fuel_cap (curr : Sample) : float :=
  fmul (RN (h2 curr)) (RN (95 # 100)).

(** The order in which the fuel law passes on a change of its input: a
    later value is at least the earlier one, or the earlier one is lost to
    NaN, or minus infinity has become NaN.  The floor at zero turns all
    three into an increase. *)
Definition passes_on (x y : float) : Prop :=
  x = NaN \/ fle x y \/ (x = NInf /\ y = NaN).

(** ** The machine's binary64 numbers *)

Module Hardware.

Import Floats.

(** The value of a machine float in the model. *)
Definition to_model (f : PrimFloat.float) : B64.float :=
  match Prim2SF f with
  | S754_zero _ => B64.Fin 0
  | S754_finite s m e =>
      B64.Fin (Qred ((if s then -1 else 1) * inject_Z (Zpos m) * Qpower 2 e))
  | S754_infinity s => if s then B64.NInf else B64.PInf
  | S754_nan => B64.NaN
  end.

Definition same (a b : B64.float) : bool :=
  match a, b with
  | B64.NaN, B64.NaN | B64.PInf, B64.PInf | B64.NInf, B64.NInf => true
  | B64.Fin x, B64.Fin y => Qeq_bool x y
  | _, _ => false
  end.

(** 0, 1, 0.2, 0.95, 800.15, -2.5, 9.5, 60, 2^53, the smallest positive
    number, two more subnormal ones, the smallest normal and the largest
    number, the infinities and NaN. *)
Definition samples : list PrimFloat.float :=
  [ 0; 1; 0x1.999999999999ap-3; 0x1.e666666666666p-1; 0x1.9013333333333p+9;
    -0x1.4p+1; 0x1.3p+3; 0x1.ep+5; 0x1p+53; 0x1p-1074; 0x1.8p-1070;
    0x0.fffffffffffffp-1022; 0x1p-1022; 0x1.fffffffffffffp+1023;
    infinity; neg_infinity; nan ]%float.

(** The machine operation and the model's give the same value on every
    pair of samples (a zero divisor apart, where Python raises). *)
Definition agree
    (machine : PrimFloat.float -> PrimFloat.float -> PrimFloat.float)
    (model : B64.float -> B64.float -> B64.float) (skip_zero : bool) : bool :=
  forallb (fun a => forallb (fun b =>
     (skip_zero && same (to_model b) (B64.Fin 0))
     || same (to_model (machine a b)) (model (to_model a) (to_model b)))
     samples) samples.

Definition agree_compare : bool :=
  forallb (fun a => forallb (fun b =>
     Bool.eqb (PrimFloat.ltb a b) (fltb (to_model a) (to_model b))
     && Bool.eqb (PrimFloat.leb a b) (fleb (to_model a) (to_model b)))
     samples) samples.

Definition agree_unary : bool :=
  forallb (fun a =>
     same (to_model (PrimFloat.abs a)) (fabs (to_model a))
     && same (to_model (PrimFloat.opp a)) (fopp (to_model a))
     && match to_model a with
        | B64.Fin q => same (RN q) (B64.Fin q)
        | _ => true
        end) samples.

End Hardware.

(** ** Concrete scenarios *)

(** The worked example of the specification. *)
Definition ex_prev : Sample := mkSample 0 10 800 300 280 430.
Definition ex_curr : Sample := mkSample 60000000 10 800 300 (2805 # 10) 440.
Definition ex_limits : Limits := mkLimits (7 # 10) 100 170 500.

(** Afterburner differential 5 below its limit, flows with two decimals:
    h2 = 10.01, air = 800.04, tc1 - tc3 = 165. *)
Definition ab_prev : Sample :=
  mkSample 0 (1001 # 100) (80004 # 100) 300 280 430.
Definition ab_curr : Sample :=
  mkSample 60000000 (1001 # 100) (80004 # 100) 300 (2805 # 10) (4455 # 10).

(** As [ab_curr], with the cathode inlet at 400 so that the stack
    differential is 119.5. *)
Definition both_curr : Sample :=
  mkSample 60000000 (1001 # 100) (80004 # 100) 400 (2805 # 10) (4455 # 10).

(** A sample submitted twice, with an air flow below the configured
    minimum. *)
Definition low_air : Sample := mkSample 0 10 400 300 280 430.

(** The same plant state one minute later, and limits whose minimum air
    flow, 500.04, has two decimals. *)
Definition low_air_next : Sample := mkSample 60000000 10 400 300 280 430.
Definition fine_limits : Limits := mkLimits (7 # 10) 100 170 (50004 # 100).


(** A clock that shows noon. *)
Definition ex_clock (key : string) : string := "12:00:00".

(** Inputs at rounding ties and at the thresholds of the guards. *)
Definition tie_prev : Sample := mkSample 0 10 800 300 280 430.
Definition tie_fuel : Sample :=
  mkSample 60000000 (95 # 10) 800 300 (2805 # 10) (4455 # 10).
Definition tie_air : Sample :=
  mkSample 60000000 10 (80015 # 100) 300 (2805 # 10) 440.
Definition tie_air_both : Sample :=
  mkSample 60000000 10 (80015 # 100) 400 (2805 # 10) (4455 # 10).
Definition edge_guard : Sample :=
  mkSample 60000000 10 800 392 (3922 # 10) (5522 # 10).
Definition edge_guard_prev : Sample :=
  mkSample 0 10 800 392 (3917 # 10) 430.
Definition drift_slope : Sample :=
  mkSample 60000000 (10125 # 1000) 800 300 (2807 # 10) 430.
Definition tie_limits : Limits := mkLimits (7 # 10) 100 170 (50015 # 100).

(** Twenty-five samples, one per minute. *)
Definition ramp_sample (k : nat) : Sample :=
  mkSample (60000000 * Z.of_nat k) 10 800 300 (280 + inject_Z (Z.of_nat k)) 430.
Definition ramp25 : list Sample := map ramp_sample (seq 0 25).

(** ** The form, the result block and a whole run of the script *)

(** The seven number inputs of the form (lines 92-103). *)
Record FormInput : Type := mkForm {
  in_h2 : Q;
  in_air : Q;
  in_t2 : Q;
  in_tc3 : Q;
  in_tc1 : Q;
  in_pa : Q;
  in_pc : Q
}.

(** The dict [current_entry] (lines 109-113); [now] is [datetime.now()].
    The two pressures are read by the form and not stored. *)
Definition current_entry (now : Z) (f : FormInput) : Sample :=
  mkSample now (in_h2 f) (in_air f) (in_t2 f) (in_tc3 f) (in_tc1 f).

(** [needle in s] on texts. *)
Fixpoint contains (needle s : string) : bool :=
  String.prefix needle s
  || match s with
     | EmptyString => false
     | String _ s' => contains needle s'
     end.

(** The two marks line 126 looks for. *)
Definition MARK_AFTERBURNER : string := "🚨".
Definition MARK_STACK : string := "⚠️".

(** What the result block puts on the page (lines 119-129): the two
    advised flows with their deltas against the form inputs, the rounded
    slope, and the message either as an error box or as a success box. *)
Record Advice : Type := mkAdvice {
  shown_h2 : float;
  h2_delta : float;
  shown_air : float;
  air_delta : float;
  shown_slope : float;
  shown_msg : string;
  as_error : bool
}.

Definition show_advice (f : FormInput) (r : StepResult) : Advice :=
  mkAdvice (next_h2 r) (Py.round (fsub (next_h2 r) (RN (in_h2 f))) 2)
           (next_air r) (Py.round (fsub (next_air r) (RN (in_air f))) 1)
           (Py.round (observed_slope r) 2)
           (status_msg r)
           (contains MARK_AFTERBURNER (status_msg r)
            || contains MARK_STACK (status_msg r)).

(** The block under [if btn:] (lines 108-133) on the form inputs. *)
Definition on_submit (lim : Limits) (now : Z) (f : FormInput)
    (st : SessionState) : option Advice * SessionState :=
  let r := submit lim (current_entry now f) st in
  (option_map (show_advice f) (fst r), snd r).

(** Line 136: the closing caption is shown once two samples are held. *)
Definition caption_shown (st : SessionState) : bool :=
  (1 <? List.length (history st))%nat.

(** One run of the script: the clock, the sidebar inputs, and the form
    with the time of the click when the button was pressed. *)
Record Run : Type := mkRun {
  run_clock : string -> string;
  run_limits : Limits;
  run_button : option (Z * FormInput)
}.

(** The script from top to bottom: sidebar first, then the submit block
    when the button was pressed. *)
Definition rerun (ev : Run) (st : SessionState)
    : option Advice * SessionState :=
  let st := sidebar (run_clock ev) (run_limits ev) st in
  match run_button ev with
  | Some (now, f) => on_submit (run_limits ev) now f st
  | None => (None, st)
  end.

(** The state after a sequence of runs. *)
Definition session_from (st : SessionState) (evs : list Run) : SessionState :=
  fold_left (fun st ev => snd (rerun ev st)) evs st.

(** The number of runs in which the button was pressed. *)
Definition presses (evs : list Run) : nat :=
  List.length (filter (fun ev => match run_button ev with
                                 | Some _ => true
                                 | None => false
                                 end) evs).

(** The limits with another ramp target. *)
Definition with_target_slope (t : Q) (lim : Limits) : Limits :=
  mkLimits t (max_stack_dt lim) (max_ab_dt lim) (min_air_flow lim).

(** The record the sidebar writes for the field [key] going from [old] to
    [new], if the two differ. *)
Definition change_of (clock : string -> string) (key : string)
    (old new : Q) : list ChangeRecord :=
  if Qeq_bool new old then []
  else [mkChange (clock key) key (Some old) new].

(** A well-formed row of the log: one of the three compared fields, a
    known old value, and a new value that differs from it. *)
Definition real_change (c : ChangeRecord) : Prop :=
  (change_field c = KEY_TARGET_SLOPE \/ change_field c = KEY_MAX_STACK_DT
   \/ change_field c = KEY_MAX_AB_DT) /\
  exists old : Q, change_old c = Some old /\ ~ change_new c == old.

(** What every run keeps true of the session. *)
Definition session_ok (st : SessionState) : Prop :=
  (List.length (history st) <= 20)%nat /\
  Forall real_change (config_log st) /\
  (last_config st = [] \/ exists lim, last_config st = current_config lim).

(** Scenarios for the runs. *)
Definition ex_form : FormInput := mkForm 10 800 300 (2805 # 10) 440 1 2.
Definition hot_form : FormInput :=
  mkForm (1001 # 100) (80004 # 100) 400 (2805 # 10) (4455 # 10) 1 2.

(** ** Facts about binary64 rounding *)

Module B64Facts.

Lemma pow2_pos (k : Z) : 0 < pow2 k.
Proof. apply Qpower_0_lt. reflexivity. Qed.

Lemma pow2_add (a b : Z) : pow2 (a + b) == pow2 a * pow2 b.
Proof. apply Qpower_plus. discriminate. Qed.

Lemma pow2_le (a b : Z) : (a <= b)%Z -> pow2 a <= pow2 b.
Proof. intro H. apply Qpower_le_compat_l; [exact H | discriminate]. Qed.

Lemma pow2_lt (a b : Z) : (a < b)%Z -> pow2 a < pow2 b.
Proof. intro H. apply Qpower_lt_compat_l; [exact H | reflexivity]. Qed.

Lemma pow2_lt_inv (a b : Z) : pow2 a < pow2 b -> (a < b)%Z.
Proof. intro H. apply (Qpower_lt_compat_l_inv 2); [exact H | reflexivity]. Qed.

Lemma pow2_Z (k : Z) : (0 <= k)%Z -> pow2 k == inject_Z (2 ^ k).
Proof. intro H. symmetry. apply (Zpower_Qpower 2 k H). Qed.

Lemma pow2_cancel (k : Z) : pow2 (- k) * pow2 k == 1.
Proof.
  rewrite <- pow2_add. replace (- k + k)%Z with 0%Z by lia. reflexivity.
Qed.

Lemma pow2_succ (k : Z) : pow2 (k + 1) == 2 * pow2 k.
Proof. rewrite pow2_add. change (pow2 1) with 2. ring. Qed.

(** *** Rounding to an integer *)

Lemma round_half_even_floor (x : Q) :
  (Qfloor x <= round_half_even x <= Qfloor x + 1)%Z.
Proof.
  unfold round_half_even.
  destruct (Qcompare _ _); [destruct (Z.even _) | |]; lia.
Qed.

Lemma round_half_even_mono (x y : Q) :
  x <= y -> (round_half_even x <= round_half_even y)%Z.
Proof.
  intro H. pose proof (Qfloor_resp_le _ _ H) as F.
  destruct (Z.eq_dec (Qfloor x) (Qfloor y)) as [E | N].
  - unfold round_half_even. rewrite E.
    destruct (Qcompare_spec (x - inject_Z (Qfloor y)) (1 # 2));
      destruct (Qcompare_spec (y - inject_Z (Qfloor y)) (1 # 2));
      try destruct (Z.even (Qfloor y)); try lia; exfalso; lra.
  - pose proof (round_half_even_floor x). pose proof (round_half_even_floor y).
    lia.
Qed.

Lemma round_half_even_comp (x y : Q) :
  x == y -> round_half_even x = round_half_even y.
Proof.
  intro H. apply Z.le_antisymm; apply round_half_even_mono; lra.
Qed.

Lemma round_half_even_Z (z : Z) : round_half_even (inject_Z z) = z.
Proof.
  unfold round_half_even. rewrite Qfloor_Z.
  destruct (Qcompare_spec (inject_Z z - inject_Z z) (1 # 2));
    trivial; exfalso; lra.
Qed.

Lemma round_half_even_le_Z (x : Q) (z : Z) :
  x <= inject_Z z -> (round_half_even x <= z)%Z.
Proof.
  intro H. rewrite <- (round_half_even_Z z). now apply round_half_even_mono.
Qed.

Lemma round_half_even_ge_Z (x : Q) (z : Z) :
  inject_Z z <= x -> (z <= round_half_even x)%Z.
Proof.
  intro H. rewrite <- (round_half_even_Z z) at 1.
  now apply round_half_even_mono.
Qed.

(** *** The binary logarithm *)

Lemma ilog2_bounds (q : Q) :
  0 < q ->
  let k := (Z.log2 (Qnum q) - Z.log2 (Zpos (Qden q)))%Z in
  pow2 (k - 1) <= q /\ q < pow2 (k + 1).
Proof.
  destruct q as [n d]. intro H. unfold Qlt in H. cbn [Qnum Qden] in H.
  assert (Hn : (0 < n)%Z) by lia. clear H. cbv zeta. cbn [Qnum Qden].
  set (a := Z.log2 n). set (b := Z.log2 (Zpos d)).
  destruct (Z.log2_spec n Hn) as [A1 A2]. fold a in A1, A2.
  destruct (Z.log2_spec (Zpos d) eq_refl) as [B1 B2]. fold b in B1, B2.
  assert (Ha : (0 <= a)%Z) by apply Z.log2_nonneg.
  assert (Hb : (0 <= b)%Z) by apply Z.log2_nonneg.
  assert (Pa : (0 < 2 ^ a)%Z) by (apply Z.pow_pos_nonneg; lia).
  assert (Pb : (0 < 2 ^ b)%Z) by (apply Z.pow_pos_nonneg; lia).
  rewrite Z.pow_succ_r in A2, B2 by assumption.
  assert (E1 : pow2 (a - b - 1) == inject_Z (2 ^ a) / inject_Z (2 * 2 ^ b)).
  { replace (a - b - 1)%Z with (a - (b + 1))%Z by lia.
    unfold pow2. rewrite Qpower_minus by discriminate.
    fold (pow2 a). fold (pow2 (b + 1)).
    rewrite (pow2_Z a), (pow2_Z (b + 1)) by lia.
    rewrite <- Z.pow_succ_r by assumption. reflexivity. }
  assert (E2 : pow2 (a - b + 1) == inject_Z (2 * 2 ^ a) / inject_Z (2 ^ b)).
  { replace (a - b + 1)%Z with ((a + 1) - b)%Z by lia.
    unfold pow2. rewrite Qpower_minus by discriminate.
    fold (pow2 (a + 1)). fold (pow2 b).
    rewrite (pow2_Z (a + 1)), (pow2_Z b) by lia.
    rewrite <- Z.pow_succ_r by assumption. reflexivity. }
  assert (Q1 : 0 < inject_Z (2 * 2 ^ b)) by (rewrite <- (Zlt_Qlt 0); lia).
  assert (Q2 : 0 < inject_Z (2 ^ b)) by (rewrite <- (Zlt_Qlt 0); lia).
  split.
  - rewrite E1. apply Qle_shift_div_r; [exact Q1|].
    unfold Qle, Qmult, inject_Z. cbn [Qnum Qden]. nia.
  - rewrite E2. apply Qlt_shift_div_l; [exact Q2|].
    unfold Qlt, Qmult, inject_Z. cbn [Qnum Qden]. nia.
Qed.

Lemma ilog2_spec (q : Q) :
  0 < q -> pow2 (ilog2 q) <= q /\ q < pow2 (ilog2 q + 1).
Proof.
  intro H. destruct (ilog2_bounds q H) as [L U]. unfold ilog2.
  set (k := (Z.log2 (Qnum q) - Z.log2 (Zpos (Qden q)))%Z) in *.
  destruct (Qle_bool (pow2 k) q) eqn:E.
  - apply Qle_bool_iff in E. split; assumption.
  - split; [exact L|]. replace (k - 1 + 1)%Z with k by lia.
    apply Qnot_le_lt. intro C. apply Qle_bool_iff in C. congruence.
Qed.

Lemma ilog2_unique (q : Q) (k : Z) :
  pow2 k <= q -> q < pow2 (k + 1) -> ilog2 q = k.
Proof.
  intros L U.
  assert (H : 0 < q) by (pose proof (pow2_pos k); lra).
  destruct (ilog2_spec q H) as [L' U'].
  assert (A : (k < ilog2 q + 1)%Z) by (apply pow2_lt_inv; lra).
  assert (B : (ilog2 q < k + 1)%Z) by (apply pow2_lt_inv; lra).
  lia.
Qed.

Lemma ilog2_mono (x y : Q) : 0 < x -> x <= y -> (ilog2 x <= ilog2 y)%Z.
Proof.
  intros Hx H. assert (Hy : 0 < y) by lra.
  destruct (ilog2_spec x Hx) as [Lx Ux]. destruct (ilog2_spec y Hy) as [Ly Uy].
  assert (A : (ilog2 x < ilog2 y + 1)%Z) by (apply pow2_lt_inv; lra).
  lia.
Qed.

Lemma ilog2_comp (x y : Q) : 0 < x -> x == y -> ilog2 x = ilog2 y.
Proof.
  intros Hx H. destruct (ilog2_spec x Hx) as [L U].
  symmetry. apply ilog2_unique; lra.
Qed.

(** *** Rounding a positive rational *)

Lemma scale_lt (x y : Q) (e : Z) : x < y * pow2 e -> x * pow2 (- e) < y.
Proof.
  intro H. pose proof (pow2_pos (- e)) as P. pose proof (pow2_cancel e) as C.
  assert (E : y == y * pow2 e * pow2 (- e)).
  { rewrite <- Qmult_assoc, (Qmult_comm (pow2 e)), C. ring. }
  rewrite E. apply Qmult_lt_compat_r; assumption.
Qed.

Lemma scale_le (x y : Q) (e : Z) : y * pow2 e <= x -> y <= x * pow2 (- e).
Proof.
  intro H. pose proof (pow2_pos (- e)) as P. pose proof (pow2_cancel e) as C.
  assert (E : y == y * pow2 e * pow2 (- e)).
  { rewrite <- Qmult_assoc, (Qmult_comm (pow2 e)), C. ring. }
  rewrite E. apply Qmult_le_compat_r; [assumption | lra].
Qed.

Lemma exponent_cases (q : Q) :
  (exponent q = ilog2 q - 52 /\ -1074 <= ilog2 q - 52)%Z
  \/ (exponent q = -1074 /\ ilog2 q - 52 < -1074)%Z.
Proof. unfold exponent. lia. Qed.

Lemma scaled_upper (q : Q) :
  0 < q -> q * pow2 (- exponent q) < inject_Z (2 ^ 53).
Proof.
  intro H. destruct (ilog2_spec q H) as [_ U].
  rewrite <- pow2_Z by lia. apply scale_lt. rewrite <- pow2_add.
  eapply Qlt_le_trans; [exact U|]. apply pow2_le.
  destruct (exponent_cases q); lia.
Qed.

Lemma scaled_lower (q : Q) :
  0 < q -> exponent q = (ilog2 q - 52)%Z ->
  inject_Z (2 ^ 52) <= q * pow2 (- exponent q).
Proof.
  intros H E. destruct (ilog2_spec q H) as [L _].
  rewrite <- pow2_Z by lia. apply scale_le. rewrite <- pow2_add.
  rewrite E. replace (52 + (ilog2 q - 52))%Z with (ilog2 q) by lia. exact L.
Qed.

Lemma scaled_pos (q : Q) : 0 < q -> 0 < q * pow2 (- exponent q).
Proof.
  intro H. pose proof (pow2_pos (- exponent q)).
  apply Qmult_lt_0_compat; assumption.
Qed.

Lemma mantissa_bounds (q : Q) :
  0 < q ->
  (0 <= round_half_even (q * pow2 (- exponent q)) <= 2 ^ 53)%Z
  /\ (exponent q = (ilog2 q - 52)%Z ->
      (2 ^ 52 <= round_half_even (q * pow2 (- exponent q)))%Z).
Proof.
  intro H. split; [split|].
  - apply round_half_even_ge_Z. pose proof (scaled_pos q H).
    change (inject_Z 0) with 0. lra.
  - apply round_half_even_le_Z. pose proof (scaled_upper q H). lra.
  - intro E. apply round_half_even_ge_Z. now apply scaled_lower.
Qed.

Lemma round_pos_nonneg (q : Q) : 0 < q -> 0 <= round_pos q.
Proof.
  intro H. unfold round_pos. cbv zeta.
  destruct (mantissa_bounds q H) as [[L _] _].
  apply Qmult_le_0_compat.
  - change 0 with (inject_Z 0). now rewrite <- Zle_Qle.
  - pose proof (pow2_pos (exponent q)). lra.
Qed.

Lemma round_pos_upper (q : Q) :
  0 < q -> round_pos q <= pow2 (exponent q + 53).
Proof.
  intro H. unfold round_pos. cbv zeta.
  destruct (mantissa_bounds q H) as [[_ U] _].
  rewrite Z.add_comm, pow2_add, (pow2_Z 53) by lia.
  apply Qmult_le_compat_r.
  - now rewrite <- Zle_Qle.
  - pose proof (pow2_pos (exponent q)). lra.
Qed.

Lemma round_pos_lower (q : Q) :
  0 < q -> exponent q = (ilog2 q - 52)%Z ->
  pow2 (exponent q + 52) <= round_pos q.
Proof.
  intros H E. unfold round_pos. cbv zeta.
  destruct (mantissa_bounds q H) as [_ L]. specialize (L E).
  rewrite Z.add_comm, pow2_add, (pow2_Z 52) by lia.
  apply Qmult_le_compat_r.
  - now rewrite <- Zle_Qle.
  - pose proof (pow2_pos (exponent q)). lra.
Qed.

Lemma exponent_mono (x y : Q) :
  0 < x -> x <= y -> (exponent x <= exponent y)%Z.
Proof.
  intros Hx H. pose proof (ilog2_mono x y Hx H). unfold exponent. lia.
Qed.

Lemma round_pos_mono (x y : Q) :
  0 < x -> x <= y -> round_pos x <= round_pos y.
Proof.
  intros Hx H. assert (Hy : 0 < y) by lra.
  pose proof (exponent_mono x y Hx H) as E.
  destruct (Z.eq_dec (exponent x) (exponent y)) as [Eq | Ne].
  - unfold round_pos. cbv zeta. rewrite Eq.
    pose proof (pow2_pos (exponent y)). pose proof (pow2_pos (- exponent y)).
    apply Qmult_le_compat_r; [|lra].
    rewrite <- Zle_Qle. apply round_half_even_mono.
    apply Qmult_le_compat_r; lra.
  - assert (Ey : exponent y = (ilog2 y - 52)%Z).
    { destruct (exponent_cases y) as [[A _] | [A _]]; trivial.
      destruct (exponent_cases x); lia. }
    eapply Qle_trans; [apply (round_pos_upper x Hx)|].
    eapply Qle_trans; [|apply (round_pos_lower y Hy Ey)].
    apply pow2_le. lia.
Qed.

Lemma round_pos_comp (x y : Q) : 0 < x -> x == y -> round_pos x = round_pos y.
Proof.
  intros Hx H. unfold round_pos, exponent. cbv zeta.
  rewrite (ilog2_comp x y Hx H).
  f_equal. f_equal. apply round_half_even_comp. now rewrite H.
Qed.

(** A number with a mantissa of at most 53 bits, at an exponent the
    format has, is left as it is. *)
Lemma round_pos_repr (m e : Z) :
  (0 < m <= 2 ^ 53)%Z -> (-1074 <= e)%Z ->
  (2 ^ 52 <= m \/ e = -1074)%Z ->
  round_pos (inject_Z m * pow2 e) == inject_Z m * pow2 e.
Proof.
  intros [M0 M1] E N. set (q := inject_Z m * pow2 e).
  pose proof (pow2_pos e) as Pe.
  assert (Hm : 0 < inject_Z m) by (now rewrite <- (Zlt_Qlt 0)).
  assert (Hq : 0 < q) by (apply Qmult_lt_0_compat; assumption).
  destruct (Z.log2_spec m M0) as [L1 L2].
  assert (Hl : (0 <= Z.log2 m)%Z) by apply Z.log2_nonneg.
  assert (I : ilog2 q = (Z.log2 m + e)%Z).
  { apply ilog2_unique; unfold q.
    - rewrite pow2_add, (pow2_Z (Z.log2 m)) by lia.
      apply Qmult_le_compat_r; [now rewrite <- Zle_Qle | lra].
    - replace (Z.log2 m + e + 1)%Z with (Z.succ (Z.log2 m) + e)%Z by lia.
      rewrite pow2_add, (pow2_Z (Z.succ (Z.log2 m))) by lia.
      apply Qmult_lt_compat_r; [lra | now rewrite <- Zlt_Qlt]. }
  destruct (Z.eq_dec m (2 ^ 53)) as [Top | NotTop].
  - assert (Lg : Z.log2 m = 53%Z) by (rewrite Top; reflexivity).
    assert (X : exponent q = (e + 1)%Z) by (unfold exponent; lia).
    unfold round_pos. cbv zeta. rewrite X.
    assert (S : q * pow2 (- (e + 1)) == inject_Z (2 ^ 52)).
    { unfold q. rewrite Top.
      replace (- (e + 1))%Z with (- e + - 1)%Z by lia.
      rewrite pow2_add, Qmult_assoc, <- (Qmult_assoc (inject_Z (2 ^ 53))),
        (Qmult_comm (pow2 e)), (pow2_cancel e).
      reflexivity. }
    rewrite (round_half_even_comp _ _ S), round_half_even_Z.
    rewrite pow2_succ. unfold q. rewrite Top.
    change (inject_Z (2 ^ 53)) with (inject_Z (2 ^ 52) * 2). ring.
  - assert (Lg : (Z.log2 m <= 52)%Z).
    { apply Z.lt_succ_r. apply Z.log2_lt_pow2; lia. }
    assert (X : exponent q = e).
    { unfold exponent. rewrite I. destruct N as [N | N]; [|lia].
      assert (52 <= Z.log2 m)%Z by (apply Z.log2_le_pow2; lia). lia. }
    unfold round_pos. cbv zeta. rewrite X.
    assert (S : q * pow2 (- e) == inject_Z m).
    { unfold q. rewrite <- Qmult_assoc, (Qmult_comm (pow2 e)), (pow2_cancel e).
      ring. }
    rewrite (round_half_even_comp _ _ S), round_half_even_Z. reflexivity.
Qed.

Lemma round_pos_idempotent (q : Q) :
  0 < q -> 0 < round_pos q -> round_pos (round_pos q) == round_pos q.
Proof.
  intros H P. unfold round_pos at 2 3. cbv zeta.
  destruct (mantissa_bounds q H) as [[M0 M1] ML].
  apply round_pos_repr.
  - split; [|exact M1].
    destruct (Z.eq_dec (round_half_even (q * pow2 (- exponent q))) 0) as [Z0|];
      [|lia].
    unfold round_pos in P. cbv zeta in P. rewrite Z0 in P.
    exfalso. change (inject_Z 0) with 0 in P. lra.
  - unfold exponent. lia.
  - destruct (exponent_cases q) as [[A _] | [A _]]; [left; auto | now right].
Qed.

Lemma round_pos_Z (z : Z) :
  (0 < z <= 2 ^ 53)%Z -> round_pos (inject_Z z) == inject_Z z.
Proof.
  intros [Z0 Z1].
  assert (Hz : 0 < inject_Z z) by (now rewrite <- (Zlt_Qlt 0)).
  destruct (Z.eq_dec z (2 ^ 53)) as [Top | NotTop].
  - assert (E : inject_Z z == inject_Z z * pow2 0)
      by (change (pow2 0) with 1; ring).
    rewrite (round_pos_comp _ _ Hz E).
    rewrite round_pos_repr by lia. symmetry. exact E.
  - destruct (Z.log2_spec z Z0) as [L1 L2].
    assert (Hl : (0 <= Z.log2 z)%Z) by apply Z.log2_nonneg.
    assert (Lg : (Z.log2 z <= 52)%Z).
    { apply Z.lt_succ_r. apply Z.log2_lt_pow2; lia. }
    set (s := (52 - Z.log2 z)%Z).
    assert (Hs : (0 <= s)%Z) by (unfold s; lia).
    assert (P2 : (0 < 2 ^ s)%Z) by (apply Z.pow_pos_nonneg; lia).
    assert (A : (2 ^ Z.log2 z * 2 ^ s = 2 ^ 52)%Z).
    { rewrite <- Z.pow_add_r by lia. f_equal. unfold s. lia. }
    assert (B : (2 ^ Z.succ (Z.log2 z) * 2 ^ s = 2 ^ 53)%Z).
    { rewrite <- Z.pow_add_r by lia. f_equal. unfold s. lia. }
    assert (E : inject_Z z == inject_Z (z * 2 ^ s) * pow2 (- s)).
    { rewrite inject_Z_mult, <- (pow2_Z s) by lia.
      rewrite <- Qmult_assoc, (Qmult_comm (pow2 s)), (pow2_cancel s). ring. }
    rewrite (round_pos_comp _ _ Hz E).
    rewrite round_pos_repr; [symmetry; exact E | | |].
    + split; [nia|]. rewrite <- B. nia.
    + unfold s. lia.
    + left. rewrite <- A. nia.
Qed.

(** *** The order on floats *)

Lemma fle_Fin (a b : Q) : fle (Fin a) (Fin b) <-> a <= b.
Proof.
  unfold fle, fleb, fcompare.
  destruct (Qcompare_spec a b); split; intro; try reflexivity;
    try discriminate; lra.
Qed.

Lemma flt_Fin (a b : Q) : flt (Fin a) (Fin b) <-> a < b.
Proof.
  unfold flt, fltb, fcompare.
  destruct (Qcompare_spec a b); split; intro; try reflexivity;
    try discriminate; lra.
Qed.

Lemma feq_Fin (a b : Q) : feq (Fin a) (Fin b) <-> a == b.
Proof.
  unfold feq, fcompare.
  destruct (Qcompare_spec a b); split; intro; try reflexivity;
    try discriminate; try lra; trivial.
Qed.

Lemma fle_refl (x : float) : x <> NaN -> fle x x.
Proof.
  destruct x; intro H; try reflexivity; [contradiction|].
  apply fle_Fin. apply Qle_refl.
Qed.

Lemma fle_not_nan (x y : float) : fle x y -> x <> NaN /\ y <> NaN.
Proof. destruct x, y; intro H; split; discriminate. Qed.

Lemma fle_trans (x y z : float) : fle x y -> fle y z -> fle x z.
Proof.
  destruct x, y, z; intros A B; try reflexivity; try discriminate.
  apply fle_Fin in A. apply fle_Fin in B. apply fle_Fin. lra.
Qed.

Lemma flt_fle (x y : float) : flt x y -> fle x y.
Proof.
  destruct x, y; intro A; try reflexivity; try discriminate.
  apply flt_Fin in A. apply fle_Fin. lra.
Qed.

Lemma fle_flt_trans (x y z : float) : fle x y -> flt y z -> flt x z.
Proof.
  destruct x, y, z; intros A B; try reflexivity; try discriminate.
  apply fle_Fin in A. apply flt_Fin in B. apply flt_Fin. lra.
Qed.

Lemma flt_fle_trans (x y z : float) : flt x y -> fle y z -> flt x z.
Proof.
  destruct x, y, z; intros A B; try reflexivity; try discriminate.
  apply flt_Fin in A. apply fle_Fin in B. apply flt_Fin. lra.
Qed.

(** Among numbers, what is not smaller is at least as large. *)
Lemma fltb_false (x y : float) :
  x <> NaN -> y <> NaN -> fltb x y = false -> fle y x.
Proof.
  destruct x, y; intros Hx Hy H; try reflexivity; try discriminate;
    try contradiction.
  apply fle_Fin. apply Qnot_lt_le. intro L. apply flt_Fin in L.
  unfold flt in L. congruence.
Qed.

Lemma fleb_false (x y : float) :
  x <> NaN -> y <> NaN -> fleb x y = false -> flt y x.
Proof.
  destruct x, y; intros Hx Hy H; try reflexivity; try discriminate;
    try contradiction.
  apply flt_Fin. apply Qnot_le_lt. intro L. apply fle_Fin in L.
  unfold fle in L. congruence.
Qed.

Lemma flt_irrefl_le (x y : float) : flt x y -> fle y x -> False.
Proof.
  destruct x, y; intros A B; try discriminate.
  apply flt_Fin in A. apply fle_Fin in B. lra.
Qed.

Lemma feq_fle (x y : float) : feq x y -> fle x y /\ fle y x.
Proof.
  destruct x, y; intro H; try discriminate; split; try reflexivity;
    apply feq_Fin in H; apply fle_Fin; lra.
Qed.

(** *** Rounding to the nearest float *)

Lemma RN_0 : RN 0 = Fin 0.
Proof. reflexivity. Qed.

Lemma RN_not_nan (x : Q) : RN x <> NaN.
Proof.
  unfold RN. destruct (Qcompare x 0); cbv zeta;
    try destruct (Qle_bool _ _); discriminate.
Qed.

Lemma RN_comp (x y : Q) : x == y -> RN x = RN y.
Proof.
  intro H. unfold RN. rewrite <- H.
  destruct (Qcompare_spec x 0) as [E | L | G]; trivial.
  - assert (P : 0 < - x) by lra. assert (N : - x == - y) by now rewrite H.
    now rewrite (round_pos_comp _ _ P N).
  - now rewrite (round_pos_comp _ _ G H).
Qed.

(** What [RN] gives on a positive and on a negative rational. *)
Lemma RN_pos (x : Q) :
  0 < x ->
  RN x = if Qle_bool (pow2 1024) (round_pos x) then PInf
         else Fin (Qred (round_pos x)).
Proof.
  intro H. unfold RN. destruct (Qcompare_spec x 0); trivial; exfalso; lra.
Qed.

Lemma RN_neg (x : Q) :
  x < 0 ->
  RN x = if Qle_bool (pow2 1024) (round_pos (- x)) then NInf
         else Fin (Qred (- round_pos (- x))).
Proof.
  intro H. unfold RN. destruct (Qcompare_spec x 0); trivial; exfalso; lra.
Qed.

Lemma RN_nonneg (x : Q) : 0 <= x -> fle (Fin 0) (RN x).
Proof.
  intro H. destruct (Qlt_le_dec 0 x) as [P | N].
  - rewrite (RN_pos x P). destruct (Qle_bool _ _); [reflexivity|].
    apply fle_Fin. rewrite Qred_correct. now apply round_pos_nonneg.
  - assert (E : x == 0) by lra. rewrite (RN_comp _ _ E), RN_0.
    apply fle_Fin. lra.
Qed.

Lemma RN_nonpos (x : Q) : x <= 0 -> fle (RN x) (Fin 0).
Proof.
  intro H. destruct (Qlt_le_dec x 0) as [P | N].
  - rewrite (RN_neg x P). destruct (Qle_bool _ _); [reflexivity|].
    apply fle_Fin. rewrite Qred_correct.
    assert (0 <= round_pos (- x)) by (apply round_pos_nonneg; lra). lra.
  - assert (E : x == 0) by lra. rewrite (RN_comp _ _ E), RN_0.
    apply fle_Fin. lra.
Qed.

(** Rounding keeps the order. *)
Lemma RN_mono (x y : Q) : x <= y -> fle (RN x) (RN y).
Proof.
  intro H.
  destruct (Qlt_le_dec 0 x) as [Px | Nx].
  - assert (Py : 0 < y) by lra.
    rewrite (RN_pos x Px), (RN_pos y Py).
    pose proof (round_pos_mono x y Px H) as M.
    destruct (Qle_bool (pow2 1024) (round_pos x)) eqn:Ox.
    + apply Qle_bool_iff in Ox.
      replace (Qle_bool (pow2 1024) (round_pos y)) with true; [reflexivity|].
      symmetry. apply Qle_bool_iff. lra.
    + destruct (Qle_bool (pow2 1024) (round_pos y)); [reflexivity|].
      apply fle_Fin. now rewrite !Qred_correct.
  - destruct (Qlt_le_dec y 0) as [Ny | Py].
    + assert (Lx : x < 0) by lra.
      rewrite (RN_neg x Lx), (RN_neg y Ny).
      assert (M : round_pos (- y) <= round_pos (- x))
        by (apply round_pos_mono; lra).
      destruct (Qle_bool (pow2 1024) (round_pos (- y))) eqn:Oy.
      * apply Qle_bool_iff in Oy.
        replace (Qle_bool (pow2 1024) (round_pos (- x))) with true;
          [reflexivity|].
        symmetry. apply Qle_bool_iff. lra.
      * destruct (Qle_bool (pow2 1024) (round_pos (- x))); [reflexivity|].
        apply fle_Fin. rewrite !Qred_correct. lra.
    + apply (fle_trans _ (Fin 0)); [now apply RN_nonpos | now apply RN_nonneg].
Qed.

(** A float is left as it is. *)
Lemma RN_idempotent (x r : Q) : RN x = Fin r -> RN r = Fin r.
Proof.
  intro H.
  assert (Z0 : forall q : Q, q == 0 -> Qred q = 0).
  { intros q E. rewrite (Qred_complete _ _ E). reflexivity. }
  destruct (Qcompare_spec x 0) as [E | L | G].
  - rewrite (RN_comp _ _ E), RN_0 in H.
    assert (Er : r = 0) by congruence. rewrite Er. reflexivity.
  - rewrite (RN_neg x L) in H. set (p := round_pos (- x)) in *.
    destruct (Qle_bool (pow2 1024) p) eqn:O; [discriminate|].
    assert (Er : r = Qred (- p)) by congruence. rewrite Er. clear H Er.
    assert (P0 : 0 <= p) by (apply round_pos_nonneg; lra).
    destruct (Qlt_le_dec 0 p) as [Pp | Zp].
    + assert (N : Qred (- p) < 0) by (rewrite Qred_correct; lra).
      rewrite (RN_neg _ N).
      assert (E : - Qred (- p) == p) by (rewrite Qred_correct; ring).
      assert (Pn : 0 < - Qred (- p)) by lra.
      assert (I : round_pos (- Qred (- p)) == p).
      { rewrite (round_pos_comp _ _ Pn E). apply round_pos_idempotent; [lra|].
        exact Pp. }
      replace (Qle_bool (pow2 1024) (round_pos (- Qred (- p)))) with false.
      * f_equal. apply Qred_complete. rewrite I. reflexivity.
      * symmetry. destruct (Qle_bool _ (round_pos (- Qred (- p)))) eqn:O';
          trivial.
        apply Qle_bool_iff in O'. rewrite I in O'.
        apply Qle_bool_iff in O'. congruence.
    + assert (E : - p == 0) by lra. rewrite (Z0 _ E). reflexivity.
  - rewrite (RN_pos x G) in H. set (p := round_pos x) in *.
    destruct (Qle_bool (pow2 1024) p) eqn:O; [discriminate|].
    assert (Er : r = Qred p) by congruence. rewrite Er. clear H Er.
    assert (P0 : 0 <= p) by (apply round_pos_nonneg; lra).
    destruct (Qlt_le_dec 0 p) as [Pp | Zp].
    + assert (N : 0 < Qred p) by (rewrite Qred_correct; lra).
      rewrite (RN_pos _ N).
      assert (I : round_pos (Qred p) == p).
      { rewrite (round_pos_comp _ _ N (Qred_correct p)).
        now apply round_pos_idempotent. }
      replace (Qle_bool (pow2 1024) (round_pos (Qred p))) with false.
      * f_equal. apply Qred_complete. exact I.
      * symmetry. destruct (Qle_bool _ (round_pos (Qred p))) eqn:O'; trivial.
        apply Qle_bool_iff in O'. rewrite I in O'.
        apply Qle_bool_iff in O'. congruence.
    + assert (E : p == 0) by lra. rewrite (Z0 _ E). reflexivity.
Qed.

(** Integers up to 2^53 are floats. *)
Lemma RN_Z (z : Z) :
  (- 2 ^ 53 <= z <= 2 ^ 53)%Z -> RN (inject_Z z) = Fin (inject_Z z).
Proof.
  intros [L U].
  assert (Big : forall p : Q, p <= inject_Z (2 ^ 53) ->
                  Qle_bool (pow2 1024) p = false).
  { intros p Hp. destruct (Qle_bool (pow2 1024) p) eqn:O; trivial.
    apply Qle_bool_iff in O.
    assert (pow2 53 < pow2 1024) by (apply pow2_lt; lia).
    rewrite (pow2_Z 53) in H by lia. lra. }
  assert (R : forall w : Z, Qred (inject_Z w) = inject_Z w).
  { intro w. unfold Qred, inject_Z.
    pose proof (Z.ggcd_gcd w 1) as G.
    pose proof (Z.ggcd_correct_divisors w 1) as D.
    destruct (Z.ggcd w 1) as [g [aa bb]]. cbn [fst snd] in *.
    rewrite Z.gcd_1_r in G. subst g. destruct D as [D1 D2].
    replace aa with w by lia. replace bb with 1%Z by lia. reflexivity. }
  destruct (Z.compare_spec z 0) as [E | N | P].
  - subst z. reflexivity.
  - assert (Lz : inject_Z z < 0)
      by (change 0 with (inject_Z 0); now rewrite <- Zlt_Qlt).
    rewrite (RN_neg _ Lz).
    assert (E : - inject_Z z == inject_Z (- z))
      by (rewrite inject_Z_opp; reflexivity).
    assert (Pz : 0 < - inject_Z z) by lra.
    rewrite (round_pos_comp _ _ Pz E).
    assert (I : round_pos (inject_Z (- z)) == inject_Z (- z))
      by (apply round_pos_Z; lia).
    rewrite Big.
    + f_equal. rewrite <- (R z). apply Qred_complete. rewrite I.
      rewrite inject_Z_opp. ring.
    + rewrite I, <- Zle_Qle. lia.
  - assert (Gz : 0 < inject_Z z)
      by (change 0 with (inject_Z 0); now rewrite <- Zlt_Qlt).
    rewrite (RN_pos _ Gz).
    assert (I : round_pos (inject_Z z) == inject_Z z)
      by (apply round_pos_Z; lia).
    rewrite Big.
    + f_equal. rewrite <- (R z) at 2. apply Qred_complete. exact I.
    + rewrite I, <- Zle_Qle. lia.
Qed.

(** *** Floats and the operations *)

Lemma is_float_RN (x : Q) : is_float (RN x).
Proof.
  destruct (RN x) as [| | r |] eqn:E; cbn; trivial.
  - now apply RN_not_nan in E.
  - now apply RN_idempotent in E.
Qed.

Lemma is_float_not_nan (x : float) : is_float x -> x <> NaN.
Proof. destruct x; cbn; intro H; try discriminate. contradiction. Qed.

Lemma fle_NInf (x : float) : x <> NaN -> fle NInf x.
Proof. destruct x; intro H; try reflexivity. contradiction. Qed.

Lemma fle_PInf (x : float) : x <> NaN -> fle x PInf.
Proof. destruct x; intro H; try reflexivity. contradiction. Qed.

Lemma fadd_Fin_not_nan (x : float) (c : Q) : x <> NaN -> fadd x (Fin c) <> NaN.
Proof.
  destruct x; intro H; cbn; try discriminate; try contradiction.
  apply RN_not_nan.
Qed.

Lemma is_float_fadd_Fin (x : float) (c : Q) :
  x <> NaN -> is_float (fadd x (Fin c)).
Proof.
  destruct x; intro H; cbn; trivial; try contradiction.
  apply is_float_RN.
Qed.

(** Adding a non-negative number to a float does not make it smaller. *)
Lemma fadd_Fin_ge (x : float) (c : Q) :
  is_float x -> 0 <= c -> fle x (fadd x (Fin c)).
Proof.
  destruct x as [| | r |]; cbn; intros F C; try reflexivity; try contradiction.
  rewrite <- F at 1. apply RN_mono. lra.
Qed.

Lemma fadd_Fin_mono (x y : float) (c : Q) :
  fle x y -> fle (fadd x (Fin c)) (fadd y (Fin c)).
Proof.
  destruct x as [| | a |], y as [| | b |]; cbn; intro H;
    try reflexivity; try discriminate.
  - apply fle_NInf, RN_not_nan.
  - apply fle_Fin in H. apply RN_mono. lra.
  - apply fle_PInf, RN_not_nan.
Qed.

Lemma scale_inf_pos (inf : float) (c : Q) : 0 < c -> scale_inf inf c = inf.
Proof.
  intro H. unfold scale_inf.
  destruct (Qcompare_spec c 0); trivial; exfalso; lra.
Qed.

Lemma fmul_pos_not_nan (x : float) (c : Q) :
  x <> NaN -> 0 < c -> fmul x (Fin c) <> NaN.
Proof.
  destruct x; intros H C; cbn; try contradiction;
    rewrite ?scale_inf_pos by assumption; try discriminate.
  apply RN_not_nan.
Qed.

Lemma fmul_pos_nonneg (x : float) (c : Q) :
  fle (Fin 0) x -> 0 < c -> fle (Fin 0) (fmul x (Fin c)).
Proof.
  destruct x as [| | r |]; intros H C; cbn; try discriminate;
    rewrite ?scale_inf_pos by assumption; try reflexivity.
  apply fle_Fin in H. apply RN_nonneg.
  apply Qmult_le_0_compat; lra.
Qed.

End B64Facts.

(** ** Facts about the built-ins *)

Module PyFacts.

Import B64Facts.

Lemma max_ge_l (a b : float) : a <> NaN -> fle a (Py.max a b).
Proof.
  intro H. unfold Py.max. destruct (fltb a b) eqn:E.
  - now apply flt_fle.
  - now apply fle_refl.
Qed.

Lemma max_ge_r (a b : float) : a <> NaN -> b <> NaN -> fle b (Py.max a b).
Proof.
  intros Ha Hb. unfold Py.max. destruct (fltb a b) eqn:E.
  - now apply fle_refl.
  - now apply fltb_false.
Qed.

Lemma max_not_nan (a b : float) : a <> NaN -> Py.max a b <> NaN.
Proof.
  intro H. unfold Py.max. destruct (fltb a b) eqn:E; trivial.
  destruct a, b; try discriminate.
Qed.

Lemma min_le_l (a b : float) : a <> NaN -> fle (Py.min a b) a.
Proof.
  intro H. unfold Py.min. destruct (fltb b a) eqn:E.
  - now apply flt_fle.
  - now apply fle_refl.
Qed.

Lemma min_le_r (a b : float) : a <> NaN -> b <> NaN -> fle (Py.min a b) b.
Proof.
  intros Ha Hb. unfold Py.min. destruct (fltb b a) eqn:E.
  - now apply fle_refl.
  - now apply fltb_false.
Qed.

Lemma min_glb (a b c : float) : fle c a -> fle c b -> fle c (Py.min a b).
Proof.
  intros Ha Hb. unfold Py.min. destruct (fltb b a); assumption.
Qed.

Lemma min_not_nan (a b : float) : a <> NaN -> Py.min a b <> NaN.
Proof.
  intro H. unfold Py.min. destruct (fltb b a) eqn:E; trivial.
  destruct a, b; try discriminate.
Qed.

Lemma min_mono_l (a a' b : float) :
  fle a a' -> fle (Py.min a b) (Py.min a' b).
Proof.
  intro H. destruct (fle_not_nan _ _ H) as [Na Na'].
  unfold Py.min.
  destruct (fltb b a) eqn:E; destruct (fltb b a') eqn:E'.
  - apply fle_refl. destruct b, a; discriminate.
  - exfalso. assert (L : flt b a') by (eapply flt_fle_trans; eassumption).
    unfold flt in L. congruence.
  - apply fltb_false; trivial. destruct b, a'; discriminate.
  - exact H.
Qed.

Lemma pow10_pos (n : nat) : 0 < Py.pow10 n.
Proof.
  unfold Py.pow10. change 0 with (inject_Z 0). rewrite <- Zlt_Qlt.
  apply Z.pow_pos_nonneg; lia.
Qed.

Lemma round_not_nan (x : float) (n : nat) : x <> NaN -> Py.round x n <> NaN.
Proof.
  destruct x; cbn; intro H; trivial. apply RN_not_nan.
Qed.

(** Rounding to [n] decimals keeps the order. *)
Lemma round_mono (n : nat) (x y : float) :
  fle x y -> fle (Py.round x n) (Py.round y n).
Proof.
  pose proof (pow10_pos n) as P.
  destruct x as [| | a |], y as [| | b |]; cbn; intro H;
    try reflexivity; try discriminate.
  - apply fle_NInf, RN_not_nan.
  - apply fle_Fin in H. apply RN_mono. unfold Qdiv.
    apply Qmult_le_compat_r.
    + rewrite <- Zle_Qle. apply round_half_even_mono.
      apply Qmult_le_compat_r; lra.
    + apply Qlt_le_weak, Qinv_lt_0_compat, P.
  - apply fle_PInf, RN_not_nan.
Qed.

Lemma is_float_round (x : float) (n : nat) :
  x <> NaN -> is_float (Py.round x n).
Proof.
  destruct x; cbn; intro H; trivial; try contradiction. apply is_float_RN.
Qed.

(** An integer float is left as it is by [round]. *)
Lemma round_Z (n : nat) (z : Z) :
  Py.round (Fin (inject_Z z)) n = RN (inject_Z z).
Proof.
  pose proof (pow10_pos n) as P. cbn [Py.round]. apply RN_comp.
  assert (E : inject_Z z * Py.pow10 n == inject_Z (z * 10 ^ Z.of_nat n))
    by (unfold Py.pow10; rewrite inject_Z_mult; reflexivity).
  rewrite (round_half_even_comp _ _ E), round_half_even_Z.
  unfold Py.pow10 in *. rewrite inject_Z_mult. field. lra.
Qed.

Lemma round_0 (n : nat) : Py.round (Fin 0) n = Fin 0.
Proof. exact (round_Z n 0). Qed.

Lemma round_nonneg (n : nat) (x : float) :
  fle (Fin 0) x -> fle (Fin 0) (Py.round x n).
Proof.
  intro H. rewrite <- (round_0 n). now apply round_mono.
Qed.

End PyFacts.
(** ** Facts about the controller *)

Import B64Facts.

(** The two rounded constants of the script. *)
Lemma H2_GAIN_value : exists g : Q, H2_GAIN = Fin g /\ 0 < g.
Proof. eexists. split; [vm_compute; reflexivity | reflexivity]. Qed.

Lemma cap_factor_value : exists c : Q, RN (95 # 100) = Fin c /\ 0 < c.
Proof. eexists. split; [vm_compute; reflexivity | reflexivity]. Qed.

(** The elapsed time has the sign of the difference of the two
    timestamps. *)
Lemma elapsed_minutes_nonpos (curr last : Sample) :
  (time curr <= time last)%Z -> fle (elapsed_minutes curr last) (Fin 0).
Proof.
  intro H. unfold elapsed_minutes.
  assert (N : inject_Z (time curr - time last) / 1000000 <= 0).
  { assert (Z0 : inject_Z (time curr - time last) <= 0)
      by (change 0 with (inject_Z 0); rewrite <- Zle_Qle; lia).
    assert (E : inject_Z (time curr - time last) / 1000000
                == inject_Z (time curr - time last) * (1 # 1000000)) by field.
    rewrite E. lra. }
  apply RN_nonpos in N.
  destruct (RN (inject_Z (time curr - time last) / 1000000)) as [| | r |];
    try discriminate.
  - reflexivity.
  - apply fle_Fin in N. cbn [fdiv].
    change (Qeq_bool 60 0) with false. cbv iota.
    apply RN_nonpos.
    assert (E : r / 60 == r * (1 # 60)) by field. rewrite E. lra.
Qed.

Lemma elapsed_minutes_pos (curr last : Sample) :
  (time last < time curr)%Z -> flt (Fin 0) (elapsed_minutes curr last).
Proof.
  intro H. unfold elapsed_minutes.
  assert (P : 1 # 1000000 <= inject_Z (time curr - time last) / 1000000).
  { assert (Z1 : 1 <= inject_Z (time curr - time last))
      by (change 1 with (inject_Z 1); rewrite <- Zle_Qle; lia).
    assert (E : inject_Z (time curr - time last) / 1000000
                == inject_Z (time curr - time last) * (1 # 1000000)) by field.
    rewrite E. lra. }
  apply RN_mono in P.
  assert (V : exists c, RN (1 # 1000000) = Fin c /\ 1 # 2000000 <= c).
  { eexists. split; [vm_compute; reflexivity | vm_compute; discriminate]. }
  destruct V as (c & Ec & Lc). rewrite Ec in P.
  destruct (RN (inject_Z (time curr - time last) / 1000000)) as [| | r |];
    [discriminate P | discriminate P | | reflexivity].
  apply fle_Fin in P. cbn [fdiv].
  change (Qeq_bool 60 0) with false. cbv iota.
  assert (Q1 : 1 # 120000000 <= r / 60).
  { assert (E : r / 60 == r * (1 # 60)) by field. rewrite E. lra. }
    apply RN_mono in Q1.
    assert (W : exists d, RN (1 # 120000000) = Fin d /\ 0 < d).
    { eexists. split; [vm_compute; reflexivity | reflexivity]. }
    destruct W as (d & Ed & Ld). rewrite Ed in Q1.
    eapply flt_fle_trans; [|exact Q1]. now apply flt_Fin.
Qed.

Lemma active_iff (curr last : Sample) :
  active curr last <-> (time last < time curr)%Z.
Proof.
  split; [|apply elapsed_minutes_pos].
  intro A. destruct (Z.lt_ge_cases (time last) (time curr)) as [L | G]; trivial.
  exfalso. apply (flt_irrefl_le _ _ A). apply elapsed_minutes_nonpos. lia.
Qed.

Lemma not_active_iff (curr last : Sample) :
  ~ active curr last <-> (time curr <= time last)%Z.
Proof. rewrite active_iff. lia. Qed.

(** The early return. *)
Lemma step_deferred (lim : Limits) (curr last : Sample) :
  ~ active curr last ->
  calculate_next_step lim curr last
  = mkResult (RN (h2 curr)) (RN (air curr)) MSG_WAITING (Fin 0).
Proof.
  intro H. apply not_active_iff in H.
  apply (elapsed_minutes_nonpos curr last) in H.
  unfold calculate_next_step. cbv zeta. unfold fle in H. now rewrite H.
Qed.

(** The result past the early return, with the two rules as
    conditionals. *)
Lemma step_active (lim : Limits) (curr last : Sample) :
  active curr last ->
  calculate_next_step lim curr last
  = let pre := Py.max (Fin 0)
                 (fadd (RN (h2 curr))
                    (fdiv (fsub (RN (target_slope lim))
                                (actual_slope curr last)) H2_GAIN)) in
    let air1 := if afterburner_test lim curr
                then fadd (RN (air curr)) (Fin 50) else RN (air curr) in
    let air2 := if stack_test lim curr then fadd air1 (Fin 100) else air1 in
    mkResult
      (Py.round (if afterburner_test lim curr
                 then Py.min pre (fuel_cap curr) else pre) 2)
      (Py.round (Py.max air2 (RN (min_air_flow lim))) 1)
      (if stack_test lim curr then MSG_STACK
       else if afterburner_test lim curr then MSG_AFTERBURNER
       else MSG_STABLE)
      (actual_slope curr last).
Proof.
  intro H. unfold calculate_next_step. cbv zeta.
  assert (E : fleb (elapsed_minutes curr last) (Fin 0) = false).
  { destruct (fleb (elapsed_minutes curr last) (Fin 0)) eqn:E; trivial.
    exfalso. exact (flt_irrefl_le _ _ H E). }
  rewrite E.
  unfold afterburner_test, stack_test, ab_dt, stack_dt, actual_slope, fuel_cap.
  destruct (fltb (fsub (RN (max_ab_dt lim)) (Fin 10)) _);
    destruct (fltb (fsub (RN (max_stack_dt lim)) (Fin 15)) _); reflexivity.
Qed.

(** The four status texts are pairwise different. *)
Lemma status_texts_distinct :
  MSG_WAITING <> MSG_STABLE /\ MSG_WAITING <> MSG_AFTERBURNER /\
  MSG_WAITING <> MSG_STACK /\ MSG_STABLE <> MSG_AFTERBURNER /\
  MSG_STABLE <> MSG_STACK /\ MSG_AFTERBURNER <> MSG_STACK.
Proof. repeat split; discriminate. Qed.

(** The value of the fuel law before any protection is a number, never
    negative. *)
Lemma pre_protection_nonneg (x : float) :
  fle (Fin 0) (Py.max (Fin 0) x) /\ Py.max (Fin 0) x <> NaN.
Proof.
  split.
  - apply PyFacts.max_ge_l. discriminate.
  - apply PyFacts.max_not_nan. discriminate.
Qed.

Lemma fuel_cap_not_nan (curr : Sample) : fuel_cap curr <> NaN.
Proof.
  unfold fuel_cap. destruct cap_factor_value as (c & E & P). rewrite E.
  apply fmul_pos_not_nan; [apply RN_not_nan | exact P].
Qed.

Lemma fuel_cap_nonneg (curr : Sample) :
  0 <= h2 curr -> fle (Fin 0) (fuel_cap curr).
Proof.
  intro H. unfold fuel_cap. destruct cap_factor_value as (c & E & P).
  rewrite E. apply fmul_pos_nonneg; [now apply RN_nonneg | exact P].
Qed.

(** The air flow before the floor: a float, at least the current air
    flow; at least the current air flow plus 50 once the afterburner rule
    has fired. *)
Lemma air_before_floor (lim : Limits) (curr : Sample) :
  let air1 := if afterburner_test lim curr
              then fadd (RN (air curr)) (Fin 50) else RN (air curr) in
  let air2 := if stack_test lim curr then fadd air1 (Fin 100) else air1 in
  is_float air1 /\ is_float air2 /\
  fle (RN (air curr)) air1 /\ fle air1 air2.
Proof.
  cbv zeta. pose proof (is_float_RN (air curr)) as F.
  pose proof (RN_not_nan (air curr)) as N.
  set (air1 := if afterburner_test lim curr
               then fadd (RN (air curr)) (Fin 50) else RN (air curr)).
  assert (F1 : is_float air1).
  { unfold air1. destruct (afterburner_test lim curr); trivial.
    now apply is_float_fadd_Fin. }
  assert (N1 : air1 <> NaN) by now apply is_float_not_nan.
  split; [exact F1|]. split; [|split].
  - destruct (stack_test lim curr); trivial. now apply is_float_fadd_Fin.
  - unfold air1. destruct (afterburner_test lim curr).
    + apply fadd_Fin_ge; [exact F | lra].
    + now apply fle_refl.
  - destruct (stack_test lim curr).
    + apply fadd_Fin_ge; [exact F1 | lra].
    + now apply fle_refl.
Qed.

(** The air advice is at least the rounding of any float below the air
    flow reached before the floor. *)
Lemma air_advice_ge (n : nat) (a b m : float) :
  fle a b -> fle (Py.round a n) (Py.round (Py.max b m) n).
Proof.
  intro H. apply PyFacts.round_mono.
  apply (fle_trans _ b); trivial.
  apply PyFacts.max_ge_l. now destruct (fle_not_nan _ _ H).
Qed.

(** What the afterburner rule guarantees once it fires: the fuel advice is
    capped by the rounded 5 percent cut, the air advice is at least the
    rounded current air flow plus 50. *)
Lemma afterburner_bounds (lim : Limits) (curr last : Sample) :
  active curr last ->
  afterburner_fires lim curr ->
  let r := calculate_next_step lim curr last in
  fle (next_h2 r) (Py.round (fuel_cap curr) 2) /\
  fle (Py.round (fadd (RN (air curr)) (Fin 50)) 1) (next_air r).
Proof.
  intros Hdt Hab. rewrite (step_active _ _ _ Hdt). cbv zeta.
  destruct (air_before_floor lim curr) as (_ & _ & _ & A12).
  unfold afterburner_fires in Hab. rewrite Hab in *.
  cbn [next_h2 next_air]. split.
  - apply PyFacts.round_mono. apply PyFacts.min_le_r.
    + apply pre_protection_nonneg.
    + apply fuel_cap_not_nan.
  - now apply air_advice_ge.
Qed.



(** ** The worked example *)

(** C1, counterexample: on the example inputs the controller does not
    return the advertised result; its fuel advice is not 9.5. *)
Lemma example_scenario_not_afterburner :
  ~ (let r := calculate_next_step ex_limits ex_curr ex_prev in
     feq (next_h2 r) (Fin (95 # 10)) /\ feq (next_air r) (Fin 850) /\
     status_msg r = MSG_AFTERBURNER /\ feq (observed_slope r) (Fin (1 # 2))).
Proof.
  intros [H _]. vm_compute in H. discriminate H.
Qed.

(** C1, as amended: on the example inputs the afterburner differential is
    159.5, which does not exceed 170 - 10 = 160, so no protection rule
    fires; the controller returns next_h2 = 11, next_air = 800, the
    stable status and observed_slope = 0.5. *)
Theorem example_scenario_result :
  let r := calculate_next_step ex_limits ex_curr ex_prev in
  feq (ab_dt ex_curr) (Fin (1595 # 10)) /\
  ~ afterburner_fires ex_limits ex_curr /\
  next_h2 r = Fin 11 /\ next_air r = Fin 800 /\
  status_msg r = MSG_STABLE /\ observed_slope r = Fin (1 # 2).
Proof.
  cbv zeta. split; [vm_compute; reflexivity|]. split.
  - unfold afterburner_fires. vm_compute. discriminate.
  - vm_compute. repeat split; reflexivity.
Qed.

(** ** Afterburner protection *)

Lemma flt_feq_r (x y z : float) : flt x y -> feq z y -> flt x z.
Proof.
  intros L E. apply feq_fle in E. destruct E as [_ E].
  eapply flt_fle_trans; eassumption.
Qed.

(** A limit of ordinary size, less 5, is above the same limit less 10 in
    binary64 as well. *)
Lemma guard_margin (m : Q) :
  Qabs m <= inject_Z (2 ^ 50) ->
  flt (fsub (RN m) (Fin 10)) (fsub (RN m) (Fin 5)).
Proof.
  intro H. apply Qabs_Qle_condition in H. destruct H as [Lo Hi].
  assert (B : fle (Fin (- inject_Z (2 ^ 50))) (RN m)
              /\ fle (RN m) (Fin (inject_Z (2 ^ 50)))).
  { split.
    - replace (Fin (- inject_Z (2 ^ 50))) with (RN (inject_Z (- 2 ^ 50)))
        by (apply RN_Z; lia).
      apply RN_mono. rewrite inject_Z_opp. exact Lo.
    - rewrite <- (RN_Z (2 ^ 50)) by lia. now apply RN_mono. }
  destruct B as [B1 B2].
  destruct (RN m) as [| | r |]; try discriminate B1; try discriminate B2.
  apply fle_Fin in B1. apply fle_Fin in B2.
  unfold fsub. cbn [fopp fadd].
  set (z := (Qfloor (r + - (10)) + 1)%Z).
  pose proof (Qfloor_le (r + - (10))) as F1.
  pose proof (Qlt_floor (r + - (10))) as F2. fold z in F2.
  assert (Ez : inject_Z z == inject_Z (Qfloor (r + - (10))) + 1)
    by (unfold z; rewrite inject_Z_plus; reflexivity).
  assert (Ez1 : inject_Z (z + 1) == inject_Z z + 1)
    by (rewrite inject_Z_plus; reflexivity).
  assert (P50 : inject_Z (2 ^ 50) == 1125899906842624) by reflexivity.
  assert (Zlo : (- 2 ^ 53 <= z)%Z).
  { rewrite Zle_Qle, inject_Z_opp.
    change (inject_Z (2 ^ 53)) with 9007199254740992. lra. }
  assert (Zhi : (z + 1 <= 2 ^ 53)%Z).
  { rewrite Zle_Qle, Ez1.
    change (inject_Z (2 ^ 53)) with 9007199254740992. lra. }
  apply (fle_flt_trans _ (Fin (inject_Z z))).
  - rewrite <- (RN_Z z) by lia. apply RN_mono. lra.
  - apply (flt_fle_trans _ (Fin (inject_Z (z + 1)))).
    + apply flt_Fin. lra.
    + rewrite <- (RN_Z (z + 1)) by lia. apply RN_mono. lra.
Qed.

(** C2, counterexample: with h2 = 10.01, air = 800.04 and an afterburner
    differential of 165 = 170 - 5, the advice is next_h2 = 9.51, above
    10.01 * 0.95 whether the product is taken in binary64 or exactly, and
    next_air = 850.0, below 800.04 + 50. *)
Lemma afterburner_trigger_unrounded_fails :
  let r := calculate_next_step ex_limits ab_curr ab_prev in
  active ab_curr ab_prev /\
  feq (ab_dt ab_curr) (fsub (RN (max_ab_dt ex_limits)) (Fin 5)) /\
  ~ (fle (next_h2 r) (fuel_cap ab_curr) /\
     fle (fadd (RN (air ab_curr)) (Fin 50)) (next_air r)) /\
  next_h2 r = RN (951 # 100) /\ next_air r = Fin 850 /\
  (exists q : Q, next_h2 r = Fin q /\ h2 ab_curr * (95 # 100) < q).
Proof.
  cbv zeta. split; [vm_compute; reflexivity|].
  split; [vm_compute; reflexivity|]. split; [|split; [|split]].
  - intros [H _]. vm_compute in H. discriminate H.
  - vm_compute. reflexivity.
  - vm_compute. reflexivity.
  - eexists. split; [vm_compute; reflexivity | vm_compute; reflexivity].
Qed.

(** C2, as amended: for every step with dt > 0 and
    ab_dt = max_ab_dt - 5, the limit being at most 2^50 in size, whatever
    the slope error, next_h2 is at most round(h2 * 0.95, 2) and next_air
    is at least round(air + 50, 1), every operation being the binary64
    one of the code. *)
Theorem afterburner_trigger (lim : Limits) (curr last : Sample) :
  active curr last ->
  Qabs (max_ab_dt lim) <= inject_Z (2 ^ 50) ->
  feq (ab_dt curr) (fsub (RN (max_ab_dt lim)) (Fin 5)) ->
  let r := calculate_next_step lim curr last in
  fle (next_h2 r) (Py.round (fmul (RN (h2 curr)) (RN (95 # 100))) 2) /\
  fle (Py.round (fadd (RN (air curr)) (Fin 50)) 1) (next_air r).
Proof.
  intros Hdt Hm Hab. apply afterburner_bounds; trivial.
  unfold afterburner_fires, afterburner_test.
  apply (flt_feq_r _ _ _ (guard_margin _ Hm) Hab).
Qed.

Lemma afterburner_trigger_witness :
  let r := calculate_next_step ex_limits ab_curr ab_prev in
  fle (next_h2 r) (Py.round (fmul (RN (h2 ab_curr)) (RN (95 # 100))) 2) /\
  fle (Py.round (fadd (RN (air ab_curr)) (Fin 50)) 1) (next_air r).
Proof.
  apply (afterburner_trigger ex_limits ab_curr ab_prev).
  - vm_compute. reflexivity.
  - vm_compute. discriminate.
  - vm_compute. reflexivity.
Defined.

(** ** Deferral on non-positive elapsed time *)

(** C4: when the current sample is not later than the previous one, the
    controller returns (it is a total function) the current h2 and air
    flows unchanged, the waiting status and an observed slope of 0. *)
Theorem zero_time_deferral (lim : Limits) (curr last : Sample) :
  (time curr <= time last)%Z ->
  calculate_next_step lim curr last
  = mkResult (RN (h2 curr)) (RN (air curr)) MSG_WAITING (Fin 0).
Proof.
  intro H. apply step_deferred. now apply not_active_iff.
Qed.

Lemma zero_time_deferral_witness :
  calculate_next_step ex_limits low_air low_air
  = mkResult (RN (h2 low_air)) (RN (air low_air)) MSG_WAITING (Fin 0).
Proof.
  apply (zero_time_deferral ex_limits low_air low_air). cbn. lia.
Defined.

(** ** Floors *)

(** C5, counterexample: a sample with air = 400 submitted twice (dt = 0)
    under min_air_flow = 500 gets next_air = 400; and with dt > 0 under
    min_air_flow = 500.04 the advice is 500.0. *)
Lemma air_floor_fails :
  (let r := calculate_next_step ex_limits low_air low_air in
   ~ active low_air low_air /\
   0 <= h2 low_air /\ 0 <= air low_air /\
   ~ (fle (Fin 0) (next_h2 r)
      /\ fle (RN (min_air_flow ex_limits)) (next_air r)) /\
   next_air r = Fin 400) /\
  (let r := calculate_next_step fine_limits low_air_next low_air in
   active low_air_next low_air /\
   0 <= h2 low_air_next /\ 0 <= air low_air_next /\
   ~ (fle (Fin 0) (next_h2 r)
      /\ fle (RN (min_air_flow fine_limits)) (next_air r)) /\
   next_air r = Fin 500).
Proof.
  cbv zeta. split.
  - split; [apply not_active_iff; cbn; lia|].
    split; [vm_compute; discriminate|].
    split; [vm_compute; discriminate|]. split.
    + intros [_ H]. vm_compute in H. discriminate H.
    + vm_compute. reflexivity.
  - split; [vm_compute; reflexivity|].
    split; [vm_compute; discriminate|].
    split; [vm_compute; discriminate|]. split.
    + intros [_ H]. vm_compute in H. discriminate H.
    + vm_compute. reflexivity.
Qed.

(** C5, as amended: for samples with non-negative flows, next_h2 >= 0 and
    next_air >= 0 on every step; when dt > 0, next_air is at least
    round(min_air_flow, 1) as Python rounds the binary64 number, hence at
    least min_air_flow itself when that is an integer (up to 2^53 in
    size); when dt <= 0, next_air is the current air flow, with no floor
    applied. *)
Theorem floor_invariants (lim : Limits) (curr last : Sample) :
  0 <= h2 curr -> 0 <= air curr ->
  let r := calculate_next_step lim curr last in
  fle (Fin 0) (next_h2 r) /\ fle (Fin 0) (next_air r) /\
  (active curr last ->
   fle (Py.round (RN (min_air_flow lim)) 1) (next_air r)) /\
  (active curr last ->
   forall z : Z, (Z.abs z <= 2 ^ 53)%Z -> min_air_flow lim == inject_Z z ->
   fle (RN (min_air_flow lim)) (next_air r)) /\
  (~ active curr last -> next_air r = RN (air curr)).
Proof.
  intros Hh Ha. cbv zeta.
  assert (Dec : active curr last \/ ~ active curr last).
  { destruct (Z.lt_ge_cases (time last) (time curr)).
    - left. now apply active_iff.
    - right. apply not_active_iff. lia. }
  destruct Dec as [Hdt | Hdt].
  - rewrite (step_active _ _ _ Hdt). cbv zeta. cbn [next_h2 next_air].
    destruct (air_before_floor lim curr) as (F1 & F2 & A1 & A2).
    cbv zeta in F1, F2, A1, A2.
    set (air1 := if afterburner_test lim curr
                 then fadd (RN (air curr)) (Fin 50) else RN (air curr)) in *.
    set (air2 := if stack_test lim curr then fadd air1 (Fin 100) else air1)
      in *.
    assert (N2 : air2 <> NaN) by now apply is_float_not_nan.
    assert (Floor : fle (Py.round (RN (min_air_flow lim)) 1)
                        (Py.round (Py.max air2 (RN (min_air_flow lim))) 1)).
    { apply PyFacts.round_mono, PyFacts.max_ge_r; [exact N2|].
      apply RN_not_nan. }
    split; [|split; [|split; [|split]]].
    + apply PyFacts.round_nonneg.
      destruct (afterburner_test lim curr).
      * apply PyFacts.min_glb;
          [apply pre_protection_nonneg | now apply fuel_cap_nonneg].
      * apply pre_protection_nonneg.
    + rewrite <- (PyFacts.round_0 1). apply air_advice_ge.
      apply (fle_trans _ (RN (air curr))); [now apply RN_nonneg|].
      apply (fle_trans _ air1); assumption.
    + intros _. exact Floor.
    + intros _ z Bz Ez.
      assert (M : RN (min_air_flow lim) = Fin (inject_Z z)).
      { rewrite (RN_comp _ _ Ez). apply RN_Z. lia. }
      rewrite M in *. rewrite PyFacts.round_Z, RN_Z in Floor by lia.
      exact Floor.
    + intro H. contradiction.
  - rewrite (step_deferred _ _ _ Hdt). cbn [next_h2 next_air].
    split; [|split; [|split; [|split]]]; trivial;
      try (now apply RN_nonneg); intro H; contradiction.
Qed.

Lemma floor_invariants_witness :
  (let r := calculate_next_step fine_limits low_air_next low_air in
   fle (Fin 0) (next_h2 r) /\
   fle (Py.round (RN (min_air_flow fine_limits)) 1) (next_air r)) /\
  (let r := calculate_next_step ex_limits low_air_next low_air in
   fle (RN (min_air_flow ex_limits)) (next_air r)) /\
  (let r := calculate_next_step ex_limits low_air low_air in
   next_air r = RN (air low_air)).
Proof.
  split; [|split].
  - destruct (floor_invariants fine_limits low_air_next low_air)
      as (A & _ & B & _); [vm_compute; discriminate ..|].
    split; [exact A|]. apply B. vm_compute. reflexivity.
  - destruct (floor_invariants ex_limits low_air_next low_air)
      as (_ & _ & _ & B & _); [vm_compute; discriminate ..|].
    apply (B ltac:(vm_compute; reflexivity) 500%Z).
    + vm_compute. discriminate.
    + reflexivity.
  - destruct (floor_invariants ex_limits low_air low_air)
      as (_ & _ & _ & _ & B); [vm_compute; discriminate ..|].
    apply B. apply not_active_iff. cbn. lia.
Defined.

(** ** Both protection rules *)

(** C6, counterexample: with air = 800.04 and both rules firing, the
    advice is next_air = 950.0, below 800.04 + 150. *)
Lemma composability_unrounded_fails :
  let r := calculate_next_step ex_limits both_curr ab_prev in
  active both_curr ab_prev /\
  afterburner_fires ex_limits both_curr /\
  stack_fires ex_limits both_curr /\
  ~ (fle (fadd (RN (air both_curr)) (Fin 150)) (next_air r)
     /\ status_msg r = MSG_STACK) /\
  next_air r = Fin 950.
Proof.
  cbv zeta. split; [vm_compute; reflexivity|].
  split; [vm_compute; reflexivity|].
  split; [vm_compute; reflexivity|]. split.
  - intros [H _]. vm_compute in H. discriminate H.
  - vm_compute. reflexivity.
Qed.

(** C6, as amended: for every step with dt > 0 in which both guards hold,
    next_air is at least round((air + 50) + 100, 1), the two increments
    added one after the other in binary64 as the code adds them, and the
    status is the stack-protection text. *)
Theorem stack_trigger_composability (lim : Limits) (curr last : Sample) :
  active curr last ->
  afterburner_fires lim curr ->
  stack_fires lim curr ->
  let r := calculate_next_step lim curr last in
  fle (Py.round (fadd (fadd (RN (air curr)) (Fin 50)) (Fin 100)) 1)
      (next_air r)
  /\ status_msg r = MSG_STACK.
Proof.
  intros Hdt Hab Hst. rewrite (step_active _ _ _ Hdt). cbv zeta.
  destruct (air_before_floor lim curr) as (_ & F2 & _ & _).
  cbv zeta in F2.
  unfold afterburner_fires in Hab. unfold stack_fires in Hst.
  rewrite Hab, Hst in *. cbn [next_air status_msg]. split; trivial.
  apply air_advice_ge. apply fle_refl. now apply is_float_not_nan.
Qed.

Lemma stack_trigger_composability_witness :
  let r := calculate_next_step ex_limits both_curr ab_prev in
  fle (Py.round (fadd (fadd (RN (air both_curr)) (Fin 50)) (Fin 100)) 1)
      (next_air r)
  /\ status_msg r = MSG_STACK.
Proof.
  apply (stack_trigger_composability ex_limits both_curr ab_prev);
    vm_compute; reflexivity.
Defined.

(** ** The fuel control law *)





(** ** Air is never reduced *)

(** C10: for every step with dt > 0, next_air is at least the current air
    flow rounded to 1 decimal, as Python rounds the binary64 number. *)
Theorem air_never_reduced (lim : Limits) (curr last : Sample) :
  active curr last ->
  fle (Py.round (RN (air curr)) 1)
      (next_air (calculate_next_step lim curr last)).
Proof.
  intro Hdt. rewrite (step_active _ _ _ Hdt). cbv zeta. cbn [next_air].
  destruct (air_before_floor lim curr) as (_ & _ & A1 & A2).
  apply air_advice_ge. eapply fle_trans; eassumption.
Qed.

Lemma air_never_reduced_witness :
  fle (Py.round (RN (air ab_curr)) 1)
      (next_air (calculate_next_step ex_limits ab_curr ab_prev)).
Proof.
  apply (air_never_reduced ex_limits ab_curr ab_prev). vm_compute. reflexivity.
Defined.
(** ** The sample store *)

Section History.

(** One append keeps the newest 20 entries. *)
Lemma history_append_skipn (h : list Sample) (e : Sample) :
  (List.length h <= 20)%nat ->
  history_append h e = skipn (List.length (h ++ [e]) - 20) (h ++ [e]).
Proof.
  intro H. unfold history_append.
  destruct (Nat.ltb_spec 20 (List.length (h ++ [e]))) as [L | L].
  - rewrite length_app in *. cbn [List.length] in *.
    replace (List.length h + 1 - 20)%nat with 1%nat by lia.
    destruct h; reflexivity.
  - replace (List.length (h ++ [e]) - 20)%nat with 0%nat by lia.
    reflexivity.
Qed.

Lemma history_append_length (h : list Sample) (e : Sample) :
  (List.length h <= 20)%nat ->
  (List.length (history_append h e) <= 20)%nat.
Proof.
  intro H. rewrite history_append_skipn by assumption.
  rewrite length_skipn. lia.
Qed.

(** Any run of appends keeps the newest 20 entries, oldest first. *)
Lemma fold_history_append (l : list Sample) :
  forall h : list Sample,
    (List.length h <= 20)%nat ->
    fold_left history_append l h
    = skipn (List.length (h ++ l) - 20) (h ++ l).
Proof.
  induction l as [| e l IH]; intros h H.
  - rewrite app_nil_r. cbn [fold_left].
    replace (List.length h - 20)%nat with 0%nat by lia. reflexivity.
  - cbn [fold_left]. rewrite IH by now apply history_append_length.
    rewrite history_append_skipn by assumption.
    set (k := (List.length (h ++ [e]) - 20)%nat).
    assert (K : (k <= List.length (h ++ [e]))%nat) by (unfold k; lia).
    replace (skipn k (h ++ [e]) ++ l) with (skipn k ((h ++ [e]) ++ l)).
    2:{ rewrite skipn_app.
        replace (k - List.length (h ++ [e]))%nat with 0%nat by lia.
        reflexivity. }
    rewrite skipn_skipn, <- app_assoc. cbn [app]. f_equal.
    rewrite length_skipn, !length_app in *. cbn [List.length] in *.
    unfold k. rewrite !length_app. cbn [List.length]. lia.
Qed.

Lemma submit_all_history (lim : Limits) (l : list Sample) :
  forall st : SessionState,
    history (submit_all lim l st) = fold_left history_append l (history st).
Proof.
  unfold submit_all. induction l as [| e l IH]; intro st; trivial.
  cbn [fold_left]. now rewrite IH.
Qed.

End History.

(** C8: submitting 25 samples to a fresh session leaves exactly 20 in the
    store: the 5 oldest are gone and the other 20 are kept in the order
    they came. *)
Theorem bounded_history (lim : Limits) (l : list Sample) :
  List.length l = 25%nat ->
  let stored := history (submit_all lim l initial_state) in
  List.length stored = 20%nat /\ stored = skipn 5 l /\
  l = firstn 5 l ++ stored.
Proof.
  intro H. cbv zeta. rewrite submit_all_history.
  cbn [history initial_state].
  rewrite fold_history_append by (cbn; lia). cbn [app]. rewrite H.
  change (25 - 20)%nat with 5%nat. split; [|split].
  - rewrite length_skipn. lia.
  - reflexivity.
  - symmetry. apply firstn_skipn.
Qed.

Lemma bounded_history_witness :
  let stored := history (submit_all ex_limits ramp25 initial_state) in
  List.length stored = 20%nat /\ stored = skipn 5 ramp25 /\
  ramp25 = firstn 5 ramp25 ++ stored.
Proof.
  apply (bounded_history ex_limits ramp25). reflexivity.
Defined.

(** ** The boundary-condition log *)

(** The comparison of two configurations built by the sidebar looks at
    three fields. *)
Lemma current_config_eqb (new old : Limits) :
  dict_eqb (current_config new) (current_config old)
  = Qeq_bool (target_slope new) (target_slope old)
    && (Qeq_bool (max_stack_dt new) (max_stack_dt old)
        && (Qeq_bool (max_ab_dt new) (max_ab_dt old) && true)).
Proof. reflexivity. Qed.

(** The records written when the sidebar runs again under new limits. *)
Lemma sidebar_again (c c' : string -> string) (new old : Limits)
    (st : SessionState) :
  config_log (sidebar c' new (sidebar c old st))
  = if negb (dict_eqb (current_config new) (current_config old))
    then log_changes c' (current_config new) (current_config old)
           (config_log (sidebar c old st))
    else config_log (sidebar c old st).
Proof. reflexivity. Qed.

(** The minimum air flow is not part of the compared configuration: a new
    value for it, alone, writes no record. *)
Lemma sidebar_ignores_min_air_flow (c c' : string -> string) (old : Limits)
    (m : Q) (st : SessionState) :
  config_log
    (sidebar c'
       (mkLimits (target_slope old) (max_stack_dt old) (max_ab_dt old) m)
       (sidebar c old st))
  = config_log (sidebar c old st).
Proof.
  rewrite sidebar_again, current_config_eqb. cbn [target_slope max_stack_dt max_ab_dt].
  now rewrite !Qeq_bool_refl.
Qed.

(** Resubmitting the same limits writes no record. *)
Lemma sidebar_unchanged (c c' : string -> string) (old : Limits)
    (st : SessionState) :
  config_log (sidebar c' old (sidebar c old st))
  = config_log (sidebar c old st).
Proof.
  rewrite sidebar_again, current_config_eqb. now rewrite !Qeq_bool_refl.
Qed.

(** A new target slope, alone, writes exactly one record, in front. *)
Lemma sidebar_target_slope_changed (c c' : string -> string) (old : Limits)
    (t : Q) (st : SessionState) :
  ~ t == target_slope old ->
  config_log
    (sidebar c'
       (mkLimits t (max_stack_dt old) (max_ab_dt old) (min_air_flow old))
       (sidebar c old st))
  = mkChange (c' KEY_TARGET_SLOPE) KEY_TARGET_SLOPE
             (Some (target_slope old)) t
    :: config_log (sidebar c old st).
Proof.
  intro N. rewrite sidebar_again, current_config_eqb.
  cbn [target_slope max_stack_dt max_ab_dt].
  assert (E : Qeq_bool t (target_slope old) = false).
  { destruct (Qeq_bool t (target_slope old)) eqn:E; trivial.
    apply Qeq_bool_iff in E. contradiction. }
  rewrite E. cbn [andb negb].
  unfold log_changes, current_config. cbn [fold_left fst snd].
  change (dict_get _ KEY_TARGET_SLOPE) with (Some (target_slope old)).
  change (dict_get _ KEY_MAX_STACK_DT) with (Some (max_stack_dt old)).
  change (dict_get _ KEY_MAX_AB_DT) with (Some (max_ab_dt old)).
  unfold differs, Py.neqb. cbn [target_slope max_stack_dt max_ab_dt].
  now rewrite E, !Qeq_bool_refl.
Qed.

(** C3, the code at the failing input: after a first run under
    (0.7, 100, 170, 500), a run that changes only min_air_flow to 600
    leaves the log empty, whereas a run that changes only target_slope to
    0.9 writes exactly one record, and a run that changes nothing writes
    none. *)
Theorem min_air_flow_change_not_logged :
  let before := sidebar ex_clock ex_limits initial_state in
  config_log before = [] /\
  config_log (sidebar ex_clock (mkLimits (7 # 10) 100 170 600) before) = [] /\
  config_log (sidebar ex_clock (mkLimits (9 # 10) 100 170 500) before)
  = [mkChange (ex_clock KEY_TARGET_SLOPE) KEY_TARGET_SLOPE
              (Some (7 # 10)) (9 # 10)] /\
  config_log (sidebar ex_clock ex_limits before) = [].
Proof.
  cbv zeta. split; [reflexivity|]. split; [|split].
  - apply (sidebar_ignores_min_air_flow ex_clock ex_clock ex_limits 600).
  - apply (sidebar_target_slope_changed ex_clock ex_clock ex_limits (9 # 10)).
    vm_compute. discriminate.
  - apply sidebar_unchanged.
Qed.


(** ** Raising the ramp target *)

Lemma passes_on_fsub (t t' s : float) :
  fle t t' -> passes_on (fsub t s) (fsub t' s).
Proof.
  unfold passes_on, fsub.
  destruct t as [| | a |], t' as [| | a' |], s as [| | v |]; cbn; intro H;
    try discriminate H; auto; right; left; try reflexivity;
    try (apply fle_NInf, RN_not_nan); try (apply fle_PInf, RN_not_nan).
  apply fle_Fin in H. apply RN_mono. lra.
Qed.

Lemma passes_on_fdiv (x y : float) (g : Q) :
  0 < g -> passes_on x y -> passes_on (fdiv x (Fin g)) (fdiv y (Fin g)).
Proof.
  intros G [N | [L | [A B]]].
  - subst x. left. reflexivity.
  - right. left.
    assert (Z : Qeq_bool g 0 = false).
    { destruct (Qeq_bool g 0) eqn:E; trivial.
      apply Qeq_bool_iff in E. exfalso. lra. }
    destruct x as [| | a |], y as [| | b |]; cbn; try discriminate L;
      rewrite ?Z, ?scale_inf_pos by assumption; try reflexivity;
      try (apply fle_NInf, RN_not_nan); try (apply fle_PInf, RN_not_nan).
    apply fle_Fin in L. apply RN_mono. unfold Qdiv.
    apply Qmult_le_compat_r; [exact L|].
    apply Qlt_le_weak, Qinv_lt_0_compat, G.
  - subst x y. right. right. cbn. rewrite scale_inf_pos by assumption.
    split; reflexivity.
Qed.

Lemma passes_on_fadd (h x y : float) :
  h <> NaN -> passes_on x y -> passes_on (fadd h x) (fadd h y).
Proof.
  unfold passes_on. intros H [N | [L | [A B]]].
  - subst x. left. destruct h; reflexivity.
  - destruct h as [| | a |], x as [| | b |], y as [| | c |]; cbn;
      try contradiction; try discriminate L; auto; right; left;
      try reflexivity;
      try (apply fle_NInf, RN_not_nan); try (apply fle_PInf, RN_not_nan).
    apply fle_Fin in L. apply RN_mono. lra.
  - subst x y. destruct h; cbn; try contradiction; auto.
Qed.

Lemma floor_passes_on (x y : float) :
  passes_on x y -> fle (Py.max (Fin 0) x) (Py.max (Fin 0) y).
Proof.
  intros [N | [L | [A B]]].
  - subst x. apply PyFacts.max_ge_l. discriminate.
  - destruct (fle_not_nan _ _ L) as [Nx Ny]. unfold Py.max.
    destruct (fltb (Fin 0) x) eqn:Ex; destruct (fltb (Fin 0) y) eqn:Ey.
    + exact L.
    + exfalso. assert (F : flt (Fin 0) y) by (eapply flt_fle_trans; eassumption).
      unfold flt in F. congruence.
    + now apply flt_fle.
    + apply fle_refl. discriminate.
  - subst x y. reflexivity.
Qed.

(** X3: on an active step, raising the ramp target (all else equal) never
    lowers the fuel advice, and leaves the air advice, the status and the
    observed slope as they were. *)
Theorem fuel_monotone_in_target (lim : Limits) (t : Q) (curr last : Sample) :
  active curr last ->
  target_slope lim <= t ->
  let r := calculate_next_step lim curr last in
  let r' := calculate_next_step (with_target_slope t lim) curr last in
  fle (next_h2 r) (next_h2 r') /\ next_air r' = next_air r /\
  status_msg r' = status_msg r /\ observed_slope r' = observed_slope r.
Proof.
  intros Hdt Ht. rewrite !(step_active _ _ _ Hdt). cbv zeta.
  change (afterburner_test (with_target_slope t lim) curr)
    with (afterburner_test lim curr).
  change (stack_test (with_target_slope t lim) curr)
    with (stack_test lim curr).
  cbn [next_h2 next_air status_msg observed_slope with_target_slope
       target_slope min_air_flow].
  split; [|repeat split].
  apply PyFacts.round_mono.
  destruct H2_GAIN_value as (g & Eg & Pg). rewrite Eg.
  assert (P : fle (Py.max (Fin 0)
                     (fadd (RN (h2 curr))
                        (fdiv (fsub (RN (target_slope lim))
                                    (actual_slope curr last)) (Fin g))))
                  (Py.max (Fin 0)
                     (fadd (RN (h2 curr))
                        (fdiv (fsub (RN t) (actual_slope curr last))
                              (Fin g))))).
  { apply floor_passes_on, passes_on_fadd; [apply RN_not_nan|].
    apply passes_on_fdiv; [exact Pg|].
    apply passes_on_fsub. now apply RN_mono. }
  destruct (afterburner_test lim curr); trivial.
  now apply PyFacts.min_mono_l.
Qed.

Lemma fuel_monotone_in_target_witness :
  let r := calculate_next_step ex_limits ex_curr ex_prev in
  let r' := calculate_next_step (with_target_slope (9 # 10) ex_limits)
              ex_curr ex_prev in
  fle (next_h2 r) (next_h2 r') /\ next_air r' = next_air r /\
  status_msg r' = status_msg r /\ observed_slope r' = observed_slope r.
Proof.
  apply (fuel_monotone_in_target ex_limits (9 # 10) ex_curr ex_prev).
  - vm_compute. reflexivity.
  - vm_compute. discriminate.
Defined.
(** ** Submitting samples *)

(** The sample just appended is the last one held, whether or not the
    oldest one was dropped. *)
Lemma history_append_last (h : list Sample) (e d : Sample) :
  history_append h e <> [] /\ List.last (history_append h e) d = e.
Proof.
  unfold history_append.
  destruct (Nat.ltb_spec 20 (List.length (h ++ [e]))) as [L | L].
  - destruct h as [| x h'].
    + cbn in L. lia.
    + cbn [app tl]. split.
      * destruct h'; discriminate.
      * apply last_last.
  - split.
    + destruct h; discriminate.
    + apply last_last.
Qed.

Lemma submit_compares_with_latest_aux (lim lim' : Limits) (e e' : Sample)
    (st : SessionState) :
  fst (submit lim' e' (snd (submit lim e st)))
  = Some (calculate_next_step lim' e' e).
Proof.
  unfold submit at 1. cbn [fst].
  change (history (snd (submit lim e st)))
    with (history_append (history st) e).
  destruct (history_append_last (history st) e e') as [N L].
  rewrite L. destruct (history_append (history st) e); [contradiction|].
  reflexivity.
Qed.

(** X7: whatever the session holds and whatever the limits were, after a
    sample [e] has been submitted the next submitted sample [e'] is
    answered with the controller's result for [e'] against [e] under the
    limits of that moment; on a session holding no sample nothing is
    answered. *)
Theorem submit_compares_with_latest (lim lim' : Limits) (e e' : Sample)
    (st : SessionState) :
  fst (submit lim' e' (snd (submit lim e st)))
  = Some (calculate_next_step lim' e' e)
  /\ (history st = [] -> fst (submit lim e st) = None).
Proof.
  split.
  - apply submit_compares_with_latest_aux.
  - intro H. unfold submit. now rewrite H.
Qed.

(** X8: from a session holding at most 20 samples, submitting the samples
    of [l] leaves the newest 20 of the old and new samples together, in
    their order; their number is the smaller of 20 and the total. *)
Theorem store_keeps_newest (lim : Limits) (l : list Sample)
    (st : SessionState) :
  (List.length (history st) <= 20)%nat ->
  let all := history st ++ l in
  let stored := history (submit_all lim l st) in
  stored = skipn (List.length all - 20) all /\
  List.length stored = Nat.min 20 (List.length all).
Proof.
  intro H. cbv zeta. rewrite submit_all_history.
  rewrite fold_history_append by assumption. split; trivial.
  rewrite length_skipn. lia.
Qed.

Lemma store_keeps_newest_witness :
  let st := mkState (firstn 18 ramp25) [] [] in
  let l := skipn 18 ramp25 in
  let all := history st ++ l in
  let stored := history (submit_all ex_limits l st) in
  stored = skipn (List.length all - 20) all /\
  List.length stored = Nat.min 20 (List.length all).
Proof.
  apply (store_keeps_newest ex_limits (skipn 18 ramp25)
           (mkState (firstn 18 ramp25) [] [])).
  cbn. lia.
Defined.

(** X9: a sample that is not later than the one submitted before it is
    answered with the waiting result, and is stored all the same: it is
    the last sample held afterwards, the one the next submission is
    compared with. *)
Theorem deferred_sample_is_stored (lim : Limits) (e e' : Sample)
    (st : SessionState) :
  (time e' <= time e)%Z ->
  let st1 := snd (submit lim e st) in
  let r := submit lim e' st1 in
  fst r = Some (mkResult (RN (h2 e')) (RN (air e')) MSG_WAITING (Fin 0)) /\
  List.last (history (snd r)) e = e' /\
  forall e'' : Sample,
    fst (submit lim e'' (snd r)) = Some (calculate_next_step lim e'' e').
Proof.
  intro H. cbv zeta. split; [|split].
  - rewrite submit_compares_with_latest_aux.
    f_equal. apply step_deferred. now apply not_active_iff.
  - apply history_append_last.
  - intro e''. apply submit_compares_with_latest_aux.
Qed.

Lemma deferred_sample_is_stored_witness :
  let st1 := snd (submit ex_limits ex_curr initial_state) in
  let r := submit ex_limits ex_prev st1 in
  fst r
  = Some (mkResult (RN (h2 ex_prev)) (RN (air ex_prev)) MSG_WAITING (Fin 0)) /\
  List.last (history (snd r)) ex_curr = ex_prev /\
  forall e'' : Sample,
    fst (submit ex_limits e'' (snd r))
    = Some (calculate_next_step ex_limits e'' ex_prev).
Proof.
  apply (deferred_sample_is_stored ex_limits ex_curr ex_prev initial_state).
  cbn. lia.
Defined.

(** ** The sidebar over several runs *)

(** The rows written by a run whose previous configuration came from the
    limits [old]: one per compared field that changed, the field compared
    last on top. *)
Lemma sidebar_log_known (c : string -> string) (new old : Limits)
    (st : SessionState) :
  last_config st = current_config old ->
  config_log (sidebar c new st)
  = change_of c KEY_MAX_AB_DT (max_ab_dt old) (max_ab_dt new)
    ++ change_of c KEY_MAX_STACK_DT (max_stack_dt old) (max_stack_dt new)
    ++ change_of c KEY_TARGET_SLOPE (target_slope old) (target_slope new)
    ++ config_log st.
Proof.
  intro H. unfold sidebar. rewrite H. cbn [config_log].
  change (match current_config old with
          | [] => config_log st
          | _ :: _ =>
              if negb (dict_eqb (current_config new) (current_config old))
              then log_changes c (current_config new) (current_config old)
                     (config_log st)
              else config_log st
          end)
    with (if negb (dict_eqb (current_config new) (current_config old))
          then log_changes c (current_config new) (current_config old)
                 (config_log st)
          else config_log st).
  rewrite current_config_eqb.
  unfold log_changes, current_config. cbn [fold_left fst snd].
  change (dict_get _ KEY_TARGET_SLOPE) with (Some (target_slope old)).
  change (dict_get _ KEY_MAX_STACK_DT) with (Some (max_stack_dt old)).
  change (dict_get _ KEY_MAX_AB_DT) with (Some (max_ab_dt old)).
  unfold differs, Py.neqb, change_of.
  destruct (Qeq_bool (target_slope new) (target_slope old));
    destruct (Qeq_bool (max_stack_dt new) (max_stack_dt old));
    destruct (Qeq_bool (max_ab_dt new) (max_ab_dt old)); reflexivity.
Qed.

Lemma sidebar_last_config (c : string -> string) (lim : Limits)
    (st : SessionState) :
  last_config (sidebar c lim st) = current_config lim
  /\ history (sidebar c lim st) = history st.
Proof. split; reflexivity. Qed.

(** X10: between two consecutive runs the sidebar writes, for each of the
    three compared fields (target slope, stack limit, afterburner limit)
    whose new value differs from the one of the run before, exactly one
    row holding the field, the old and the new value, and nothing else;
    the rows of one run are put in front of the older ones, the
    afterburner limit on top, then the stack limit, then the target
    slope. *)
Theorem sidebar_rows_between_runs (c c' : string -> string)
    (old new : Limits) (st : SessionState) :
  config_log (sidebar c' new (sidebar c old st))
  = change_of c' KEY_MAX_AB_DT (max_ab_dt old) (max_ab_dt new)
    ++ change_of c' KEY_MAX_STACK_DT (max_stack_dt old) (max_stack_dt new)
    ++ change_of c' KEY_TARGET_SLOPE (target_slope old) (target_slope new)
    ++ config_log (sidebar c old st).
Proof.
  apply sidebar_log_known. reflexivity.
Qed.

Lemma change_of_real (c : string -> string) (key : string) (old new : Q) :
  key = KEY_TARGET_SLOPE \/ key = KEY_MAX_STACK_DT \/ key = KEY_MAX_AB_DT ->
  Forall real_change (change_of c key old new).
Proof.
  intro K. unfold change_of.
  destruct (Qeq_bool new old) eqn:E; constructor; [|constructor].
  split; [exact K|]. exists old. split; [reflexivity|].
  cbn [change_new]. intro N. apply Qeq_bool_iff in N. congruence.
Qed.

Lemma sidebar_ok (c : string -> string) (lim : Limits) (st : SessionState) :
  session_ok st -> session_ok (sidebar c lim st).
Proof.
  intros (H & L & C). split; [exact H|]. split.
  - destruct C as [C | [old C]].
    + unfold sidebar. rewrite C. exact L.
    + rewrite (sidebar_log_known c lim old st C).
      repeat (apply Forall_app; split); trivial;
        apply change_of_real; tauto.
  - right. exists lim. reflexivity.
Qed.

Lemma rerun_state (ev : Run) (st : SessionState) :
  snd (rerun ev st)
  = let st' := sidebar (run_clock ev) (run_limits ev) st in
    match run_button ev with
    | Some (now, f) =>
        mkState (history_append (history st') (current_entry now f))
                (config_log st') (last_config st')
    | None => st'
    end.
Proof.
  unfold rerun. destruct (run_button ev) as [[now f] |]; reflexivity.
Qed.

Lemma rerun_ok (ev : Run) (st : SessionState) :
  session_ok st -> session_ok (snd (rerun ev st)).
Proof.
  intro H. apply (sidebar_ok (run_clock ev) (run_limits ev)) in H.
  rewrite rerun_state. cbv zeta.
  destruct (run_button ev) as [[now f] |]; trivial.
  destruct H as (H & L & C). split; [|split]; trivial.
  cbn [history]. now apply history_append_length.
Qed.

Lemma session_from_ok (evs : list Run) :
  forall st : SessionState, session_ok st -> session_ok (session_from st evs).
Proof.
  unfold session_from. induction evs as [| ev evs IH]; intros st H; trivial.
  cbn [fold_left]. apply IH. now apply rerun_ok.
Qed.

Lemma session_from_history_length (evs : list Run) :
  forall st : SessionState,
    (List.length (history st) <= 20)%nat ->
    List.length (history (session_from st evs))
    = Nat.min 20 (List.length (history st) + presses evs).
Proof.
  unfold session_from, presses.
  induction evs as [| ev evs IH]; intros st H.
  - cbn [fold_left filter List.length]. lia.
  - cbn [fold_left filter]. rewrite rerun_state. cbv zeta.
    destruct (run_button ev) as [[now f] |].
    + rewrite IH.
      * cbn [history List.length].
        rewrite history_append_skipn by exact H.
        rewrite length_skipn, length_app. cbn [List.length].
        change (history (sidebar (run_clock ev) (run_limits ev) st))
          with (history st).
        lia.
      * cbn [history]. now apply history_append_length.
    + rewrite IH by exact H. reflexivity.
Qed.

(** X11: in every session, after any sequence of runs from the fresh
    state: the store holds min(20, number of button presses) samples; every
    row of the log names one of the three compared fields and holds a known
    old value and a new value different from it; and the closing caption
    is shown exactly when the button was pressed twice or more. *)
Theorem session_invariant (evs : list Run) :
  let st := session_from initial_state evs in
  List.length (history st) = Nat.min 20 (presses evs) /\
  Forall real_change (config_log st) /\
  (caption_shown st = true <-> (2 <= presses evs)%nat).
Proof.
  cbv zeta.
  assert (I : session_ok initial_state).
  { split; [cbn; lia|]. split; [constructor | now left]. }
  pose proof (session_from_history_length evs initial_state (proj1 I)) as H.
  cbn [history initial_state List.length Nat.add] in H.
  split; [exact H|]. split.
  - apply (session_from_ok evs initial_state I).
  - unfold caption_shown. rewrite H, Nat.ltb_lt. lia.
Qed.

(** X12: a run in which neither the limits change nor the button is
    pressed leaves the session exactly as the run before left it and shows
    no advice. *)
Theorem idle_rerun_changes_nothing (c : string -> string) (ev : Run)
    (st : SessionState) :
  let st1 := snd (rerun ev st) in
  rerun (mkRun c (run_limits ev) None) st1 = (None, st1).
Proof.
  cbv zeta. unfold rerun at 1. cbn [run_button run_clock run_limits].
  f_equal.
  assert (C : last_config (snd (rerun ev st))
              = current_config (run_limits ev)).
  { rewrite rerun_state. cbv zeta.
    destruct (run_button ev) as [[now f] |]; reflexivity. }
  generalize dependent (snd (rerun ev st)). intros st1 C.
  pose proof (sidebar_log_known c (run_limits ev) (run_limits ev) st1 C) as L.
  unfold change_of in L. rewrite !Qeq_bool_refl in L. cbn [app] in L.
  destruct st1 as [h lg lc]. cbn [last_config config_log] in *.
  unfold sidebar in *. cbn [history config_log last_config] in *.
  rewrite L, C. reflexivity.
Qed.


(** ** What the result block shows *)



Lemma fsub_self (x : float) : finite x -> fsub x x = Fin 0.
Proof.
  destruct x as [| | a |]; cbn; intro H; try contradiction.
  assert (E : a + - a == 0) by ring. now rewrite (RN_comp _ _ E).
Qed.

(** X14: when the form is submitted at a time not later than the last
    stored sample, the block shows the form's own flows as advice, a zero
    slope, the waiting text and a success box; each delta is zero, the
    entered flow being within the binary64 range. *)
Theorem deferral_shows_no_change (lim : Limits) (now : Z) (f : FormInput)
    (last : Sample) :
  (now <= time last)%Z ->
  let a := show_advice f
             (calculate_next_step lim (current_entry now f) last) in
  shown_h2 a = RN (in_h2 f) /\ shown_air a = RN (in_air f) /\
  (finite (RN (in_h2 f)) -> h2_delta a = Fin 0) /\
  (finite (RN (in_air f)) -> air_delta a = Fin 0) /\
  shown_slope a = Fin 0 /\
  shown_msg a = MSG_WAITING /\ as_error a = false.
Proof.
  intros H. cbv zeta.
  assert (D : ~ active (current_entry now f) last)
    by now apply not_active_iff.
  rewrite (step_deferred _ _ _ D). unfold show_advice.
  cbn [shown_h2 shown_air h2_delta air_delta shown_slope shown_msg as_error
       next_h2 next_air observed_slope status_msg current_entry h2 air].
  rewrite !PyFacts.round_0.
  repeat split; try reflexivity; intro F;
    now rewrite (fsub_self _ F), PyFacts.round_0.
Qed.

Lemma deferral_shows_no_change_witness :
  let a := show_advice ex_form
             (calculate_next_step ex_limits (current_entry 0 ex_form)
                ex_curr) in
  shown_h2 a = RN (in_h2 ex_form) /\ shown_air a = RN (in_air ex_form) /\
  h2_delta a = Fin 0 /\ air_delta a = Fin 0 /\ shown_slope a = Fin 0 /\
  shown_msg a = MSG_WAITING /\ as_error a = false.
Proof.
  destruct (deferral_shows_no_change ex_limits 0 ex_form ex_curr)
    as (A & B & C & D & E & F & G); [cbn; lia|].
  split; [exact A|]. split; [exact B|].
  split; [apply C; vm_compute; exact I|].
  split; [apply D; vm_compute; exact I|].
  repeat split; assumption.
Defined.

(** ** The model against the machine and at the delicate inputs *)

(** On every pair of the sample numbers, the four operations, the two
    comparisons, the absolute value and the negation of the model give
    what the machine's binary64 arithmetic gives, and every machine number
    is left as it is by [RN]. *)
Lemma model_agrees_with_machine :
  Hardware.agree PrimFloat.add fadd false = true /\
  Hardware.agree PrimFloat.sub fsub false = true /\
  Hardware.agree PrimFloat.mul fmul false = true /\
  Hardware.agree PrimFloat.div fdiv true = true /\
  Hardware.agree_compare = true /\ Hardware.agree_unary = true.
Proof. vm_compute. repeat split; reflexivity. Qed.

(** 9.5 * 0.95 is 9.0250000000000004 in binary64: the advice is 9.03, not
    the 9.02 of exact arithmetic. *)
Example fuel_cap_at_a_tie :
  next_h2 (calculate_next_step ex_limits tie_fuel tie_prev) = RN (903 # 100).
Proof. vm_compute. reflexivity. Qed.

(** 800.15 is 800.14999999999998 in binary64: it rounds to 800.1; with
    both rules, (800.15 + 50) + 100 rounds to 950.1. *)
Example air_at_a_tie :
  next_air (calculate_next_step ex_limits tie_air tie_prev) = RN (8001 # 10)
  /\ next_air (calculate_next_step ex_limits tie_air_both tie_prev)
     = RN (9501 # 10).
Proof. vm_compute. split; reflexivity. Qed.

(** A minimum air flow of 500.15 gives the advice 500.1. *)
Example floor_at_a_tie :
  next_air (calculate_next_step tie_limits low_air_next low_air)
  = RN (5001 # 10).
Proof. vm_compute. reflexivity. Qed.

(** 552.2 - 392.2 is 160.00000000000006 in binary64, above 170 - 10: the
    afterburner rule fires. *)
Example guard_at_the_threshold :
  afterburner_fires ex_limits edge_guard /\
  next_h2 (calculate_next_step ex_limits edge_guard edge_guard_prev)
  = RN (95 # 10) /\
  next_air (calculate_next_step ex_limits edge_guard edge_guard_prev)
  = Fin 850.
Proof. vm_compute. repeat split; reflexivity. Qed.

(** From 280 to 280.7 in one minute the slope is 0.6999999999999886, not
    0.7, and the advice for h2 = 10.125 is 10.13. *)
Example slope_is_rounded :
  observed_slope (calculate_next_step ex_limits drift_slope tie_prev)
  = Fin (12314530231091 # 17592186044416) /\
  next_h2 (calculate_next_step ex_limits drift_slope tie_prev)
  = RN (1013 # 100).
Proof. vm_compute. split; reflexivity. Qed.
